(** * firestarter.game_engine.engine — a shallow embedding of [Engine]

    The development follows [engine.py] method by method.  Python objects that
    the engine shares with its host (the keyboard object handed out by
    [Window.request_keyboard], the sprite objects, the logger) are kept in
    explicit state that is threaded through the methods; a method that can
    raise returns a [result] next to the state it leaves behind. *)

From Stdlib Require Import ZArith QArith Ascii String.
From stdpp Require Import gmap strings list relations.

Local Open Scope Z_scope.
Local Open Scope nat_scope.
Local Open Scope list_scope.

(** ** Python results *)

Inductive exn : Type :=
  | KeyError (key : string)
  | ValueError
  | TypeError
  | AttributeError
  | OSError (path : string).

Inductive result (A : Type) : Type :=
  | Ok (a : A)
  | Raise (e : exn).
Arguments Ok {A} a.
Arguments Raise {A} e.

Definition is_ok {A} (r : result A) : bool :=
  match r with Ok _ => true | Raise _ => false end.

(** ** Values the engine stores *)

(** What [toml.load] hands back: a dict of TOML values. *)
Local Unset Elimination Schemes.
Inductive toml_value : Type :=
  | TInt (z : Z)
  | TFloat (repr : string)
  | TBool (b : bool)
  | TStr (s : string)
  | TArr (items : list toml_value)
  | TTable (fields : list (string * toml_value)).
Local Set Elimination Schemes.

Definition toml_dict : Type := list (string * toml_value).

(** GPU texture handle of [CoreImage(path).texture]. *)
Record Texture : Type := mkTexture {
  tex_source : string;
  mag_filter : string
}.

(** Modelled from the spec: [SpriteConfig] of [firestarter.game_engine.sprite]
    is not among the sources; the spec's AnimationConfig is a record of the
    five constructor arguments.  What the constructor does with them (it may
    validate and raise) is left to [Assets.Services]. *)
Record SpriteConfig : Type := mkSpriteConfig {
  cfg_path : string;
  cfg_texture : Texture;
  cfg_size : toml_value;
  cfg_modes : toml_value;
  cfg_frame_count : toml_value
}.

(** Sprites are objects; the engine only ever holds references to them. *)
Definition SpriteId : Type := nat.

(** The reference stored in [self._keyboard]. *)
Inductive keyboard_ref : Type := WindowKeyboard.

(** ** The [Engine] instance *)

Record Engine : Type := mkEngine {
  _keyboard : option keyboard_ref;
  pressed_keys : gset string;
  sprites : list SpriteId;
  assets : gmap string SpriteConfig
}.

Definition set__keyboard (v : option keyboard_ref) (self : Engine) : Engine :=
  mkEngine v (pressed_keys self) (sprites self) (assets self).
Definition set_pressed_keys (v : gset string) (self : Engine) : Engine :=
  mkEngine (_keyboard self) v (sprites self) (assets self).
Definition set_sprites (v : list SpriteId) (self : Engine) : Engine :=
  mkEngine (_keyboard self) (pressed_keys self) v (assets self).
Definition set_assets (v : gmap string SpriteConfig) (self : Engine) : Engine :=
  mkEngine (_keyboard self) (pressed_keys self) (sprites self) v.

(** ** Keyboard input *)

Module Input.

(** Kivy passes a key code as the tuple [(code, name)]. *)
Definition key_code : Type := Z * string.

(** [self.pressed_keys.add(key_code[1])] *)
Definition _on_keyboard_down (self : Engine) (kc : key_code)
    (text : string) (modifiers : list string) : Engine :=
  set_pressed_keys ({[ kc.2 ]} ∪ pressed_keys self) self.

(** [self.pressed_keys.remove(key_code[1])]; [set.remove] raises
    [KeyError] on a member that is not there and leaves the set alone. *)
Definition _on_keyboard_up (self : Engine) (kc : key_code) : result unit * Engine :=
  if decide (kc.2 ∈ pressed_keys self)
  then (Ok tt, set_pressed_keys (pressed_keys self ∖ {[ kc.2 ]}) self)
  else (Raise (KeyError kc.2), self).

(** The spec's read accessor: consumers test membership in [pressed_keys]. *)
Definition is_pressed (self : Engine) (k : string) : bool :=
  bool_decide (k ∈ pressed_keys self).

End Input.

(** ** Keyboard binding *)

Module Kbd.

(** The callbacks an [Engine] registers are its two bound methods; other
    clients of the same keyboard object register their own. *)
Inductive callback : Type :=
  | Engine_on_keyboard_down
  | Engine_on_keyboard_up
  | Foreign (tag : nat).

#[global] Instance callback_eq_dec : EqDecision callback.
Proof. solve_decision. Defined.

Inductive event_name : Type := on_key_down | on_key_up.

(** The keyboard object: one observer list per event. *)
Record Keyboard : Type := mkKeyboard {
  key_down_observers : list callback;
  key_up_observers : list callback
}.

(** Kivy's [unbind] drops the first matching observer and does nothing
    when there is none. *)
Fixpoint drop_first (cb : callback) (l : list callback) : list callback :=
  match l with
  | [] => []
  | c :: l' => if decide (cb = c) then l' else c :: drop_first cb l'
  end.

(** Kivy's [bind] puts the callback at the end of the event's observers,
    unless that callback is bound to the event already. *)
Definition add_observer (cb : callback) (l : list callback) : list callback :=
  if decide (cb ∈ l) then l else l ++ [cb].

Definition bind (ev : event_name) (cb : callback) (kb : Keyboard) : Keyboard :=
  match ev with
  | on_key_down => mkKeyboard (add_observer cb (key_down_observers kb)) (key_up_observers kb)
  | on_key_up => mkKeyboard (key_down_observers kb) (add_observer cb (key_up_observers kb))
  end.

Definition unbind (ev : event_name) (cb : callback) (kb : Keyboard) : Keyboard :=
  match ev with
  | on_key_down => mkKeyboard (drop_first cb (key_down_observers kb)) (key_up_observers kb)
  | on_key_up => mkKeyboard (key_down_observers kb) (drop_first cb (key_up_observers kb))
  end.

Definition observers (ev : event_name) (kb : Keyboard) : list callback :=
  match ev with
  | on_key_down => key_down_observers kb
  | on_key_up => key_up_observers kb
  end.

(** The first three statements of [Engine.__init__]. *)
Definition acquire_keyboard (self : Engine) (kb : Keyboard) : Engine * Keyboard :=
  let self := set__keyboard (Some WindowKeyboard) self in
  let kb := bind on_key_down Engine_on_keyboard_down kb in
  let kb := bind on_key_up Engine_on_keyboard_up kb in
  (self, kb).

(** [_keyboard_closed]: both [unbind] calls name [self._on_keyboard_down]. *)
Definition _keyboard_closed (self : Engine) (kb : Keyboard)
    : result unit * (Engine * Keyboard) :=
  match _keyboard self with
  | None => (Raise AttributeError, (self, kb))
  | Some WindowKeyboard =>
      let kb := unbind on_key_down Engine_on_keyboard_down kb in
      let kb := unbind on_key_up Engine_on_keyboard_down kb in
      (Ok tt, (set__keyboard None self, kb))
  end.

End Kbd.

(** ** Sprites and the two periodic callbacks *)

(** What the engine needs from [Sprite] (defined by the consumer, in
    [sprite.py]): the [killed] attribute and the two methods it calls.  A
    [World] holds the state of every sprite object, so [update] and
    [cycle_animation] may change any of them, the [killed] flags included.
    [update] is handed the registry list, which it reads: the sprites of the
    game never add to it or remove from it. *)
Class SpriteClass (World : Type) : Type := {
  killed : World → SpriteId → bool;
  sprite_update : SpriteId → list SpriteId → World → World;
  cycle_animation : SpriteId → World → World
}.

(** The per-frame hook a subclass of [Engine] overrides. *)
Class EngineSubclass (World : Type) : Type := {
  update : Q → Engine → World → Engine * World
}.

(** [Engine.update]: [pass]. *)
Definition Engine_update {World : Type} (dt : Q) (self : Engine) (w : World)
    : Engine * World := (self, w).

Definition BaseEngine (World : Type) : EngineSubclass World :=
  {| update := Engine_update |}.

(** Calls the engine makes on its collaborators, in the order made. *)
Inductive event : Type :=
  | SpriteUpdate (sprite : SpriteId) (peers : list SpriteId)
  | CycleAnimation (sprite : SpriteId)
  | AddWidget (sprite : SpriteId)
  | RemoveWidget (sprite : SpriteId)
  | UserUpdate (dt : Q).

(** [list.remove(x)]: drop the first element equal to [x]; [ValueError]
    ([None]) when there is none. *)
Fixpoint list_remove (x : SpriteId) (l : list SpriteId) : option (list SpriteId) :=
  match l with
  | [] => None
  | y :: l' => if decide (x = y) then Some l' else cons y <$> list_remove x l'
  end.


Definition is_update_of (s : SpriteId) (e : event) : bool :=
  match e with SpriteUpdate s' _ => bool_decide (s' = s) | _ => false end.

(** How many times [s.update(...)] was called. *)
Definition update_calls (s : SpriteId) (tr : list event) : nat :=
  length (List.filter (is_update_of s) tr).

Definition is_cycle_of (s : SpriteId) (e : event) : bool :=
  match e with CycleAnimation s' => bool_decide (s' = s) | _ => false end.

(** How many times [s.cycle_animation()] was called. *)
Definition cycle_calls (s : SpriteId) (tr : list event) : nat :=
  length (List.filter (is_cycle_of s) tr).

(** [e] is something the sprite loop did with sprite [s]: it called its
    [update] or removed it. *)
Definition touches (s : SpriteId) (e : event) : bool :=
  match e with
  | SpriteUpdate s' _ | RemoveWidget s' => bool_decide (s' = s)
  | _ => false
  end.

Definition untouched (s : SpriteId) (tr : list event) : Prop :=
  Forall (λ e, touches s e = false) tr.

Module Loop.
Section WithSprites.
Context {World : Type} `{SpriteClass World}.

(** State of [for sprite in self.sprites: ...] inside [_update]: the list
    iterator is an index into the very list the body mutates. *)
Record state : Type := mkState {
  index : nat;
  registry : list SpriteId;
  world : World;
  trace : list event
}.

Inductive step_result : Type :=
  | Exhausted
  | Continue (st : state)
  | Fault (e : exn) (st : state).

(** One turn of the loop: fetch [self.sprites[index]], advance the
    iterator, run the body. *)
Definition step (st : state) : step_result :=
  match registry st !! index st with
  | None => Exhausted
  | Some sprite =>
      if killed (world st) sprite then
        match list_remove sprite (registry st) with
        | None =>
            Fault ValueError
              (mkState (S (index st)) (registry st) (world st) (trace st))
        | Some l =>
            Continue
              (mkState (S (index st)) l (world st)
                 (trace st ++ [RemoveWidget sprite]))
        end
      else
        Continue
          (mkState (S (index st)) (registry st)
             (sprite_update sprite (registry st) (world st))
             (trace st ++ [SpriteUpdate sprite (registry st)]))
  end.

(** The loop itself; [None] only when [fuel] turns do not reach the end. *)
Fixpoint run (fuel : nat) (st : state) : option (result unit * state) :=
  match step st with
  | Exhausted => Some (Ok tt, st)
  | Fault e st' => Some (Raise e, st')
  | Continue st' =>
      match fuel with
      | O => None
      | S fuel' => run fuel' st'
      end
  end.

Definition start (l : list SpriteId) (w : World) : state := mkState 0 l w [].

(** [st ~> st']: the loop goes from [st] to [st'] in one turn. *)
Definition turn (st st' : state) : Prop := step st = Continue st'.

(** What one turn does, read off [step]. *)
Inductive turn_spec (st st' : state) : Prop :=
  | turn_remove sprite :
      registry st !! index st = Some sprite →
      killed (world st) sprite = true →
      list_remove sprite (registry st) = Some (registry st') →
      index st' = S (index st) →
      world st' = world st →
      trace st' = trace st ++ [RemoveWidget sprite] →
      turn_spec st st'
  | turn_update sprite :
      registry st !! index st = Some sprite →
      killed (world st) sprite = false →
      registry st' = registry st →
      index st' = S (index st) →
      world st' = sprite_update sprite (registry st) (world st) →
      trace st' = trace st ++ [SpriteUpdate sprite (registry st)] →
      turn_spec st st'.

End WithSprites.
End Loop.
Arguments Loop.state World : clear implicits.

Section Ticks.
Context {World : Type} `{SpriteClass World} `{EngineSubclass World}.

(** [_animate]: a plain walk over [self.sprites]. *)
Fixpoint animate_loop (l : list SpriteId) (w : World) (tr : list event)
    : World * list event :=
  match l with
  | [] => (w, tr)
  | sprite :: rest =>
      animate_loop rest (cycle_animation sprite w) (tr ++ [CycleAnimation sprite])
  end.

Definition _animate (dt : Q) (self : Engine) (w : World)
    : Engine * World * list event :=
  let '(w', tr) := animate_loop (sprites self) w [] in
  (self, w', tr).

(** The [for] loop of [_update] on registry [l]. *)
Definition sprite_pass (l : list SpriteId) (w : World)
    : option (result unit * Loop.state World) :=
  Loop.run (length l) (Loop.start l w).

(** [_update]: the sprite loop, then [self.update(dt)].  Every turn of the
    loop either advances past an element or shortens the list, so
    [length self.sprites] turns are enough. *)
Definition _update (dt : Q) (self : Engine) (w : World)
    : option (result unit * (Engine * World * list event)) :=
  match sprite_pass (sprites self) w with
  | None => None
  | Some (Raise e, st) =>
      Some (Raise e, (set_sprites (Loop.registry st) self, Loop.world st, Loop.trace st))
  | Some (Ok _, st) =>
      let '(self', w') := update dt (set_sprites (Loop.registry st) self) (Loop.world st) in
      Some (Ok tt, (self', w', Loop.trace st ++ [UserUpdate dt]))
  end.

(** The clock calling [_update] [n] times in a row. *)
Fixpoint ticks (n : nat) (dt : Q) (self : Engine) (w : World)
    : option (result unit * (Engine * World)) :=
  match n with
  | O => Some (Ok tt, (self, w))
  | S n' =>
      match _update dt self w with
      | None => None
      | Some (Raise e, (self', w', _)) => Some (Raise e, (self', w'))
      | Some (Ok _, (self', w', _)) => ticks n' dt self' w'
      end
  end.

End Ticks.

(** ** Registering sprites *)

Section Attach.
Context {Tree : Type}.

(** [Widget.add_widget] of the host toolkit, on the engine's widget tree: it
    may refuse a widget and raise. *)
Context (add_widget : SpriteId → Tree → result unit * Tree).

(** [add_sprite]: the list is appended to before the widget is attached. *)
Definition add_sprite (sprite : SpriteId) (self : Engine) (tree : Tree)
    : result unit * (Engine * Tree) :=
  let self := set_sprites (sprites self ++ [sprite]) self in
  let '(r, tree) := add_widget sprite tree in
  (r, (self, tree)).

(** [for sprite in sprites: self.add_widget(sprite)] *)
Fixpoint add_widgets (new : list SpriteId) (tree : Tree) : result unit * Tree :=
  match new with
  | [] => (Ok tt, tree)
  | sprite :: rest =>
      match add_widget sprite tree with
      | (Ok _, tree') => add_widgets rest tree'
      | (Raise e, tree') => (Raise e, tree')
      end
  end.

(** [add_sprites]: the list is extended first, the widgets follow one by one. *)
Definition add_sprites (new : list SpriteId) (self : Engine) (tree : Tree)
    : result unit * (Engine * Tree) :=
  let self := set_sprites (sprites self ++ new) self in
  let '(r, tree) := add_widgets new tree in
  (r, (self, tree)).

End Attach.

(** ** What a pass over a registry comes to *)

(** The registry a pass leaves, given which sprites are killed: a live
    sprite stays; a killed one goes, and the iterator then steps over the
    sprite behind it, which stays whatever its flag. *)
Fixpoint survivors (dead : SpriteId → bool) (l : list SpriteId) : list SpriteId :=
  match l with
  | [] => []
  | x :: rest =>
      if dead x then
        match rest with
        | [] => []
        | y :: rest' => y :: survivors dead rest'
        end
      else x :: survivors dead rest
  end.

(** The sprites whose [update] a pass calls, in order. *)
Fixpoint updated (dead : SpriteId → bool) (l : list SpriteId) : list SpriteId :=
  match l with
  | [] => []
  | x :: rest =>
      if dead x then
        match rest with
        | [] => []
        | _ :: rest' => updated dead rest'
        end
      else x :: updated dead rest
  end.

(** No [update] sets or clears a [killed] flag. *)
Definition flags_stable {World : Type} `{SpriteClass World} : Prop :=
  ∀ s peers w x, killed (sprite_update s peers w) x = killed w x.

(** The receivers of the [update] calls of a trace. *)
Definition update_targets (tr : list event) : list SpriteId :=
  omap (λ e, match e with SpriteUpdate s _ => Some s | _ => None end) tr.

(** ** Key events as the keyboard delivers them *)

Module Dispatch.

Inductive key_event : Type :=
  | KeyDown (kc : Input.key_code) (text : string) (modifiers : list string)
  | KeyUp (kc : Input.key_code).

(** The bound handler the keyboard calls for one event. *)
Definition handle (self : Engine) (ev : key_event) : result unit * Engine :=
  match ev with
  | KeyDown kc text modifiers => (Ok tt, Input._on_keyboard_down self kc text modifiers)
  | KeyUp kc => Input._on_keyboard_up self kc
  end.

(** A run of events, up to the first handler that raises. *)
Fixpoint handle_all (self : Engine) (evs : list key_event) : result unit * Engine :=
  match evs with
  | [] => (Ok tt, self)
  | ev :: rest =>
      match handle self ev with
      | (Ok _, self') => handle_all self' rest
      | (Raise e, self') => (Raise e, self')
      end
  end.

Definition event_key (ev : key_event) : string :=
  match ev with KeyDown kc _ _ | KeyUp kc => kc.2 end.

Definition is_down (ev : key_event) : bool :=
  match ev with KeyDown _ _ _ => true | KeyUp _ => false end.

(** Whether the last event for key [k], if any, was a press. *)
Fixpoint last_event_for (k : string) (evs : list key_event) : option bool :=
  match evs with
  | [] => None
  | ev :: rest =>
      match last_event_for k rest with
      | Some b => Some b
      | None => if decide (event_key ev = k) then Some (is_down ev) else None
      end
  end.

End Dispatch.

(** ** Asset loading *)

#[global] Instance result_ret : MRet result := @Ok.
#[global] Instance result_bind : MBind result := λ A B f r,
  match r with
  | Ok a => f a
  | Raise e => Raise e
  end.

Module Assets.

Definition IMAGE_EXTENSIONS : list string := ["png"%string].

(** [s.rsplit('.', 1)] when [s] has a dot: the text before the last dot and
    the text after it. *)
Fixpoint rsplit_dot (s : string) : option (string * string) :=
  match s with
  | EmptyString => None
  | String c s' =>
      match rsplit_dot s' with
      | Some (before, after) => Some (String c before, after)
      | None => if Ascii.eqb c "."%char then Some (EmptyString, s') else None
      end
  end.

(** [s.rsplit('.', 1)[0]] and [s.rsplit('.', 1)[-1]]; a name without a dot
    splits into the one-element list [[s]]. *)
Definition rsplit_first (s : string) : string :=
  match rsplit_dot s with Some (before, _) => before | None => s end.
Definition rsplit_last (s : string) : string :=
  match rsplit_dot s with Some (_, after) => after | None => s end.

(** The services the loader calls: the file system and the two parsers, for
    files named relative to [resource_dir / 'sprites'], and the constructor
    of [SpriteConfig]. *)
Record Services : Type := mkServices {
  listdir : result (list string);
  path_exists : string → bool;
  CoreImage_texture : string → result Texture;
  toml_load : string → result toml_dict;
  SpriteConfig_init :
    string → Texture → toml_value → toml_value → toml_value → result SpriteConfig
}.

Inductive log_record : Type := LogError (msg : string).

Fixpoint dict_get (key : string) (d : toml_dict) : option toml_value :=
  match d with
  | [] => None
  | (k, v) :: d' => if decide (key = k) then Some v else dict_get key d'
  end.

(** [v[key]] for a string [key]: only a dict can be subscripted that way. *)
Definition subscript (v : toml_value) (key : string) : result toml_value :=
  match v with
  | TTable fields =>
      match dict_get key fields with
      | Some x => Ok x
      | None => Raise (KeyError key)
      end
  | _ => Raise TypeError
  end.

Definition config_file_of (sprite_sheet : string) : string :=
  rsplit_first sprite_sheet +:+ "_config.toml".

Definition is_image (sp : string) : Prop := rsplit_last sp ∈ IMAGE_EXTENSIONS.

(** The body of the [for] loop that runs once the config file exists. *)
Definition load_sheet (fs : Services) (sprite_sheet : string)
    (assets : gmap string SpriteConfig) : result (gmap string SpriteConfig) :=
  texture ← CoreImage_texture fs sprite_sheet;
  let texture := mkTexture (tex_source texture) "nearest" in
  doc ← toml_load fs (config_file_of sprite_sheet);
  config_dict ← subscript (TTable doc) "animation";
  size ← subscript config_dict "size";
  modes ← subscript config_dict "modes";
  frame_count ← subscript config_dict "frame_count";
  config ← SpriteConfig_init fs sprite_sheet texture size modes frame_count;
  Ok (<[rsplit_first sprite_sheet := config]> assets).

Definition no_config_message (sprite_sheet : string) : string :=
  "Engine: No configuration file found for " +:+ sprite_sheet +:+ ", not loading it.".

Fixpoint load_loop (fs : Services) (sheets : list string)
    (assets : gmap string SpriteConfig) (log : list log_record)
    : result (gmap string SpriteConfig) * list log_record :=
  match sheets with
  | [] => (Ok assets, log)
  | sprite_sheet :: rest =>
      if negb (path_exists fs (config_file_of sprite_sheet)) then
        load_loop fs rest assets (log ++ [LogError (no_config_message sprite_sheet)])
      else
        match load_sheet fs sprite_sheet assets with
        | Ok assets' => load_loop fs rest assets' log
        | Raise e => (Raise e, log)
        end
  end.

(** [load_sprite_sheets]: the dict it returns, or the exception that leaves
    it, and what it wrote to the logger. *)
Definition load_sprite_sheets (fs : Services)
    : result (gmap string SpriteConfig) * list log_record :=
  match listdir fs with
  | Raise e => (Raise e, [])
  | Ok names => load_loop fs (filter is_image names) ∅ []
  end.

(** A config file the loader cannot use: it does not parse, or it lacks the
    [animation] table or one of that table's three keys. *)
Definition has_required_keys (doc : toml_dict) : bool :=
  match dict_get "animation" doc with
  | Some (TTable fields) =>
      bool_decide (is_Some (dict_get "size" fields))
      && bool_decide (is_Some (dict_get "modes" fields))
      && bool_decide (is_Some (dict_get "frame_count" fields))
  | _ => false
  end.

Definition malformed (fs : Services) (config_file : string) : Prop :=
  match toml_load fs config_file with
  | Ok doc => has_required_keys doc = false
  | Raise _ => True
  end.

(** Where an entry of the dict comes from. *)
Definition built_from (fs : Services) (sp : string) (config : SpriteConfig) : Prop :=
  ∃ tex doc fields size modes frame_count,
    CoreImage_texture fs sp = Ok tex
    ∧ toml_load fs (config_file_of sp) = Ok doc
    ∧ dict_get "animation" doc = Some (TTable fields)
    ∧ dict_get "size" fields = Some size
    ∧ dict_get "modes" fields = Some modes
    ∧ dict_get "frame_count" fields = Some frame_count
    ∧ SpriteConfig_init fs sp (mkTexture (tex_source tex) "nearest")
        size modes frame_count = Ok config.

End Assets.

(** ** Construction *)

Module Init.

Inductive task : Type := Task_update | Task_animate.

(** The host objects [__init__] touches: the window's keyboard, the clock's
    schedule (callback and frequency in Hz) and the logger. *)
Record Host : Type := mkHost {
  keyboard : Kbd.Keyboard;
  schedule : list (task * nat);
  logger : list Assets.log_record
}.

(** [Engine.__init__]; when it raises there is no engine. *)
Definition __init__ (fs : Assets.Services) (host : Host) : result Engine * Host :=
  let '(self, kb) := Kbd.acquire_keyboard (mkEngine None ∅ [] ∅) (keyboard host) in
  let self := set_pressed_keys ∅ self in
  let self := set_sprites [] self in
  match Assets.load_sprite_sheets fs with
  | (Raise e, log) => (Raise e, mkHost kb (schedule host) (logger host ++ log))
  | (Ok loaded, log) =>
      (Ok (set_assets loaded self),
       mkHost kb (schedule host ++ [(Task_update, 60); (Task_animate, 10)])
              (logger host ++ log))
  end.

End Init.

(** ** Test fixtures *)

Module Fixture.

(** Sprites that do nothing: a world is the list of sprites whose [killed]
    flag is set, and neither method changes it. *)
Definition inert : SpriteClass (list SpriteId) :=
  {| killed := λ w s, bool_decide (s ∈ w);
     sprite_update := λ _ _ w, w;
     cycle_animation := λ _ w, w |}.

(** Sprites that kill the peer listed right after them when updated. *)
Definition next_peer (s : SpriteId) (peers : list SpriteId) : list SpriteId :=
  match list_find (λ x, x = s) peers with
  | Some (i, _) => option_list (peers !! S i)
  | None => []
  end.

Definition hunters : SpriteClass (list SpriteId) :=
  {| killed := λ w s, bool_decide (s ∈ w);
     sprite_update := λ s peers w, next_peer s peers ++ w;
     cycle_animation := λ _ w, w |}.

Definition fresh_engine : Engine := mkEngine None ∅ [] ∅.

Definition key_a : Input.key_code := (97%Z, "a"%string).

(** A [SpriteConfig] constructor that stores its arguments as given. *)
Definition plain_config (path : string) (texture : Texture)
    (size modes frame_count : toml_value) : result SpriteConfig :=
  Ok (mkSpriteConfig path texture size modes frame_count).

(** A sprites directory with [hero.png] and [coin.png]; only the coin has a
    config file. *)
Definition coin_doc : toml_dict :=
  [("animation"%string,
    TTable [("size"%string, TArr [TInt 16; TInt 16]);
            ("modes"%string, TInt 2);
            ("frame_count"%string, TArr [TInt 4; TInt 4])])].

Definition coin_only : Assets.Services :=
  {| Assets.listdir := Ok ["hero.png"; "coin.png"; "coin_config.toml"]%string;
     Assets.path_exists := λ f, bool_decide (f = "coin_config.toml"%string);
     Assets.CoreImage_texture := λ f, Ok (mkTexture f "linear");
     Assets.toml_load := λ f,
       if bool_decide (f = "coin_config.toml"%string) then Ok coin_doc
       else Raise (OSError f);
     Assets.SpriteConfig_init := plain_config |}.

(** The same directory, where [hero_config.toml] exists but its
    [animation] table has no [modes] key. *)
Definition hero_doc_without_modes : toml_dict :=
  [("animation"%string,
    TTable [("size"%string, TArr [TInt 16; TInt 16]);
            ("frame_count"%string, TArr [TInt 4; TInt 4])])].

Definition hero_malformed : Assets.Services :=
  {| Assets.listdir :=
       Ok ["coin.png"; "coin_config.toml"; "hero.png"; "hero_config.toml"]%string;
     Assets.path_exists := λ f,
       bool_decide (f = "coin_config.toml"%string)
       || bool_decide (f = "hero_config.toml"%string);
     Assets.CoreImage_texture := λ f, Ok (mkTexture f "linear");
     Assets.toml_load := λ f,
       if bool_decide (f = "coin_config.toml"%string) then Ok coin_doc
       else if bool_decide (f = "hero_config.toml"%string) then Ok hero_doc_without_modes
       else Raise (OSError f);
     Assets.SpriteConfig_init := plain_config |}.

Definition coin_config : SpriteConfig :=
  mkSpriteConfig "coin.png" (mkTexture "coin.png" "nearest")
    (TArr [TInt 16; TInt 16]) (TInt 2) (TArr [TInt 4; TInt 4]).

Definition idle_host : Init.Host := Init.mkHost (Kbd.mkKeyboard [] []) [] [].

(** A widget tree that lists its children, newest first, and refuses a
    sprite it already shows. *)
Definition attach_once (sprite : SpriteId) (children : list SpriteId)
    : result unit * list SpriteId :=
  if decide (sprite ∈ children) then (Raise ValueError, children)
  else (Ok tt, sprite :: children).

End Fixture.

(** * Properties *)

(** ** Keyboard input *)

Section InputProperties.
Import Input.

Lemma is_pressed_true self k : is_pressed self k = true ↔ k ∈ pressed_keys self.
Proof. unfold is_pressed. apply bool_decide_eq_true. Qed.

Lemma is_pressed_false self k : is_pressed self k = false ↔ k ∉ pressed_keys self.
Proof. unfold is_pressed. apply bool_decide_eq_false. Qed.

Lemma key_up_pressed self kc :
  kc.2 ∈ pressed_keys self →
  _on_keyboard_up self kc
  = (Ok tt, set_pressed_keys (pressed_keys self ∖ {[ kc.2 ]}) self).
Proof. intros Hin. unfold _on_keyboard_up. by rewrite decide_True. Qed.

(** C1, as the code has it: releasing a key that is not in the pressed set
    raises [KeyError] for that key; the engine, its pressed set included,
    is left exactly as it was. *)
Theorem key_up_not_pressed_raises (self : Engine) (kc : key_code) :
  is_pressed self kc.2 = false →
  _on_keyboard_up self kc = (Raise (KeyError kc.2), self).
Proof.
  intros Hnot%is_pressed_false. unfold _on_keyboard_up.
  by rewrite decide_False.
Qed.

(** On a fresh engine nothing is pressed, and releasing "a" raises. *)
Lemma key_up_not_pressed_raises_witness :
  is_pressed Fixture.fresh_engine "a" = false
  ∧ _on_keyboard_up Fixture.fresh_engine Fixture.key_a
    = (Raise (KeyError "a"), Fixture.fresh_engine).
Proof.
  split; [reflexivity|].
  apply (key_up_not_pressed_raises Fixture.fresh_engine Fixture.key_a).
  reflexivity.
Defined.

(** C1 fails as stated: on a fresh engine, where "a" is not pressed, the
    key-up handler for "a" does not return normally. *)
Lemma key_up_not_pressed_fails :
  is_pressed Fixture.fresh_engine "a" = false
  ∧ is_ok (_on_keyboard_up Fixture.fresh_engine Fixture.key_a).1 = false.
Proof. split; reflexivity. Qed.

(** Pressing a key that is already pressed changes nothing. *)
Theorem key_down_idempotent (self : Engine) (kc : key_code)
    (text text' : string) (modifiers modifiers' : list string) :
  _on_keyboard_down (_on_keyboard_down self kc text modifiers) kc text' modifiers'
  = _on_keyboard_down self kc text modifiers.
Proof.
  unfold _on_keyboard_down, set_pressed_keys. simpl.
  by rewrite (assoc_L (∪)), union_idemp_L.
Qed.

(** C7: after key-down for a key it is reported pressed; a key-up for the
    same key then returns normally and the key is reported not pressed. *)
Theorem press_release_round_trip (self : Engine) (kc : key_code)
    (text : string) (modifiers : list string) :
  let pressed := _on_keyboard_down self kc text modifiers in
  is_pressed pressed kc.2 = true
  ∧ ∃ released,
      _on_keyboard_up pressed kc = (Ok tt, released)
      ∧ is_pressed released kc.2 = false.
Proof.
  simpl.
  assert (Hin : kc.2 ∈ pressed_keys (_on_keyboard_down self kc text modifiers))
    by (simpl; set_solver).
  split; [by apply is_pressed_true|].
  eexists. split; [by apply key_up_pressed|].
  apply is_pressed_false. simpl.
  rewrite not_elem_of_difference. right. by apply elem_of_singleton.
Qed.

End InputProperties.

(** ** Keyboard binding *)

Section KbdProperties.
Import Kbd.

Lemma drop_first_other (cb other : callback) (l : list callback) :
  cb ≠ other → other ∈ l → other ∈ drop_first cb l.
Proof.
  intros Hne. induction l as [|c l IH]; simpl; [done|].
  intros Hin. destruct (decide (cb = c)) as [->|Hc].
  - apply elem_of_cons in Hin as [->|Hin]; [done|exact Hin].
  - apply elem_of_cons in Hin as [->|Hin]; [left|right; auto].
Qed.

Lemma drop_first_absent (cb : callback) (l : list callback) :
  cb ∉ l → drop_first cb l = l.
Proof.
  induction l as [|c l IH]; simpl; [done|].
  intros Hnot. apply not_elem_of_cons in Hnot as [Hne Hnot].
  rewrite decide_False by done. by rewrite IH.
Qed.

(** What [_keyboard_closed] does to a keyboard the engine holds: the
    key-down handler leaves the key-down observers, the reference is
    cleared, and the key-up handler stays among the key-up observers. *)
Lemma keyboard_closed_key_up_survives (self : Engine) (kb : Keyboard) :
  _keyboard self = Some WindowKeyboard →
  Engine_on_keyboard_up ∈ key_up_observers kb →
  ∃ self' kb',
    _keyboard_closed self kb = (Ok tt, (self', kb'))
    ∧ _keyboard self' = None
    ∧ key_down_observers kb' = drop_first Engine_on_keyboard_down (key_down_observers kb)
    ∧ Engine_on_keyboard_up ∈ key_up_observers kb'.
Proof.
  intros Hheld Hbound. unfold _keyboard_closed. rewrite Hheld.
  eexists _, _. split; [reflexivity|]. simpl.
  split; [done|]. split; [done|].
  by apply drop_first_other.
Qed.

(** C6 on a freshly bound keyboard: after [_keyboard_closed] the reference
    is cleared and no key-down observer is left, but [_on_keyboard_up] is
    still bound to [on_key_up]. *)
Theorem keyboard_closed_leaves_key_up_bound :
  let '(self, kb) := acquire_keyboard Fixture.fresh_engine (mkKeyboard [] []) in
  ∃ self' kb',
    _keyboard_closed self kb = (Ok tt, (self', kb'))
    ∧ _keyboard self' = None
    ∧ observers on_key_down kb' = []
    ∧ observers on_key_up kb' = [Engine_on_keyboard_up].
Proof. simpl. eexists _, _. repeat split. Qed.

End KbdProperties.

(** ** The sprite loop of [_update] *)

Section ListRemove.

Lemma list_remove_lookup (l : list SpriteId) (i : nat) (x : SpriteId) :
  l !! i = Some x →
  ∃ l', list_remove x l = Some l' ∧ length l = S (length l').
Proof.
  revert i. induction l as [|y l IH]; intros i Hi; [done|].
  simpl. destruct (decide (x = y)) as [->|Hne]; [by eexists|].
  destruct i as [|i]; simpl in Hi; [congruence|].
  destruct (IH i Hi) as (l' & -> & Hlen).
  eexists. split; [reflexivity|]. simpl. by rewrite Hlen.
Qed.

Lemma list_remove_NoDup (l : list SpriteId) (i : nat) (x : SpriteId) :
  NoDup l → l !! i = Some x → list_remove x l = Some (delete i l).
Proof.
  revert i. induction l as [|y l IH]; intros i Hnd Hi; [done|].
  apply NoDup_cons in Hnd as [Hy Hnd].
  destruct i as [|i]; simpl in Hi.
  - injection Hi as ->. simpl. by rewrite decide_True.
  - simpl. rewrite decide_False.
    + by rewrite (IH i Hnd Hi).
    + intros ->. apply Hy. by eapply list_elem_of_lookup_2.
Qed.

End ListRemove.

Section LoopProperties.
Context {World : Type} `{SpriteClass World}.
Import Loop.

Local Abbreviation state := (Loop.state World).

Lemma turn_inv (st st' : state) : turn st st' → turn_spec st st'.
Proof.
  unfold turn, step. intros Hstep.
  destruct (registry st !! index st) as [sprite|] eqn:Hcur; [|done].
  destruct (killed (world st) sprite) eqn:Hk.
  - destruct (list_remove sprite (registry st)) as [l|] eqn:Hrm; [|done].
    injection Hstep as <-. by eapply turn_remove.
  - injection Hstep as <-. by eapply turn_update.
Qed.

(** [list.remove] always finds the sprite the iterator has just fetched. *)
Lemma step_no_fault (st st' : state) (e : exn) : step st ≠ Fault e st'.
Proof.
  unfold step. destruct (registry st !! index st) as [sprite|] eqn:Hcur; [|done].
  destruct (killed (world st) sprite); [|done].
  destruct (list_remove_lookup _ _ _ Hcur) as (l' & -> & _). done.
Qed.

Lemma step_exhausted (st : state) :
  step st = Exhausted ↔ length (registry st) ≤ index st.
Proof.
  unfold step. rewrite <- lookup_ge_None.
  destruct (registry st !! index st) as [sprite|] eqn:Hcur; [|done].
  split; [|done].
  destruct (killed (world st) sprite); [|done].
  by destruct (list_remove sprite (registry st)).
Qed.

Lemma turn_measure (st st' : state) :
  turn st st' →
  length (registry st') - index st' < length (registry st) - index st.
Proof.
  intros [sprite Hcur _ Hrm Hidx _ _|sprite Hcur _ Hreg Hidx _ _]%turn_inv;
    pose proof (lookup_lt_Some _ _ _ Hcur) as Hlt; rewrite Hidx.
  - destruct (list_remove_lookup _ _ _ Hcur) as (l' & Hrm' & Hlen).
    rewrite Hrm in Hrm'. injection Hrm' as <-. lia.
  - rewrite Hreg. lia.
Qed.

Lemma turn_deterministic (st st1 st2 : state) :
  turn st st1 → turn st st2 → st1 = st2.
Proof. unfold turn. congruence. Qed.

(** With enough fuel the loop runs to the end of the list and returns. *)
Lemma run_enough_fuel (fuel : nat) (st : state) :
  length (registry st) - index st ≤ fuel →
  ∃ fin, run fuel st = Some (Ok tt, fin) ∧ rtc turn st fin ∧ step fin = Exhausted.
Proof.
  revert st. induction fuel as [|fuel IH]; intros st Hfuel.
  - exists st. assert (Hex : step st = Exhausted) by (apply step_exhausted; lia).
    simpl. rewrite Hex. done.
  - simpl. destruct (step st) as [|st'|e st'] eqn:Hstep.
    + exists st. done.
    + pose proof (turn_measure st st' Hstep) as Hlt.
      destruct (IH st') as (fin & Hrun & Hreach & Hfin); [lia|].
      exists fin. split; [done|]. split; [|done].
      by eapply rtc_l.
    + by apply step_no_fault in Hstep.
Qed.

(** Every state the loop passes through leads on to the state it ends in. *)
Lemma rtc_turn_final (st mid fin : state) :
  rtc turn st mid → rtc turn st fin → step fin = Exhausted → rtc turn mid fin.
Proof.
  intros Hmid. revert fin. induction Hmid as [st|st st1 mid Hturn _ IH];
    intros fin Hfin Hex; [done|].
  apply IH; [|done].
  apply rtc_inv in Hfin as [<-|(st2 & Hturn2 & Hrest)].
  - unfold turn in Hturn. congruence.
  - by rewrite (turn_deterministic _ _ _ Hturn Hturn2).
Qed.

Lemma turn_trace_prefix (st st' : state) :
  rtc turn st st' → trace st `prefix_of` trace st'.
Proof.
  induction 1 as [st|st st1 st2 Hturn _ IH]; [done|].
  etrans; [|exact IH].
  apply turn_inv in Hturn as [sprite _ _ _ _ _ ->|sprite _ _ _ _ _ ->];
    by apply prefix_app_r.
Qed.

(** The loop of [_update] always returns, from a state at the end of the
    list that the start state leads to. *)
Lemma sprite_pass_returns (l : list SpriteId) (w : World) :
  ∃ fin,
    sprite_pass l w = Some (Ok tt, fin)
    ∧ rtc turn (start l w) fin
    ∧ step fin = Exhausted.
Proof. apply run_enough_fuel. simpl. lia. Qed.

End LoopProperties.

(** ** A simulation tick *)

Section TickProperties.
Context {World : Type} `{SpriteClass World} `{EngineSubclass World}.
Import Loop.

Local Abbreviation state := (Loop.state World).

Lemma turn_update_now (st : state) (sprite : SpriteId) :
  registry st !! index st = Some sprite →
  killed (world st) sprite = false →
  turn st (mkState (S (index st)) (registry st)
             (sprite_update sprite (registry st) (world st))
             (trace st ++ [SpriteUpdate sprite (registry st)])).
Proof. intros Hcur Hk. unfold turn, step. by rewrite Hcur, Hk. Qed.

Lemma turn_remove_now (st : state) (sprite : SpriteId) :
  NoDup (registry st) →
  registry st !! index st = Some sprite →
  killed (world st) sprite = true →
  turn st (mkState (S (index st)) (delete (index st) (registry st)) (world st)
             (trace st ++ [RemoveWidget sprite])).
Proof.
  intros Hnd Hcur Hk. unfold turn, step.
  by rewrite Hcur, Hk, (list_remove_NoDup _ _ _ Hnd Hcur).
Qed.



(** Every [update] call in the trace was made on the sprite under the
    iterator, with the registry of that moment. *)
Lemma update_event_origin (st0 st : state) (sprite : SpriteId) (peers : list SpriteId) :
  rtc turn st0 st →
  trace st0 = [] →
  SpriteUpdate sprite peers ∈ trace st →
  ∃ mid,
    rtc turn st0 mid
    ∧ registry mid !! index mid = Some sprite
    ∧ killed (world mid) sprite = false
    ∧ peers = registry mid.
Proof.
  intros Hreach Hstart. revert sprite peers.
  pattern st. eapply rtc_ind_r; [| |exact Hreach]; clear st Hreach.
  - intros sprite peers Hin. rewrite Hstart in Hin. by apply elem_of_nil in Hin.
  - intros st st' Hreach Hturn IH sprite peers Hin.
    apply turn_inv in Hturn as [s Hcur Hk _ _ _ Htr|s Hcur Hk _ _ _ Htr];
      rewrite Htr in Hin; apply elem_of_app in Hin as [Hin|Hin]; auto;
      apply list_elem_of_singleton in Hin; [done|].
    injection Hin as -> ->. by exists st.
Qed.

Lemma run_index_bound (n : nat) (st fin : state) (r : result unit) :
  run n st = Some (r, fin) → index fin ≤ index st + n.
Proof.
  revert st. induction n as [|n IH]; intros st; simpl.
  - destruct (step st) as [|st'|e st'] eqn:Hstep; [|done|].
    + intros [= _ <-]. lia.
    + by apply step_no_fault in Hstep.
  - destruct (step st) as [|st'|e st'] eqn:Hstep.
    + intros [= _ <-]. lia.
    + intros Hrun. apply IH in Hrun.
      apply turn_inv in Hstep as [x _ _ _ Hidx _ _|x _ _ _ Hidx _ _]; lia.
    + by apply step_no_fault in Hstep.
Qed.

(** The loop of [_update] itself, with sprites whose [update] returns: on
    every registry it comes to the end of the list after at most as many
    turns as the registry had entries, and [list.remove] never raises
    [ValueError] in it. *)
Theorem sprite_loop_terminates (l : list SpriteId) (w : World) :
  ∃ fin,
    sprite_pass l w = Some (Ok tt, fin)
    ∧ rtc turn (start l w) fin
    ∧ step fin = Exhausted
    ∧ index fin ≤ length l.
Proof.
  destruct (sprite_pass_returns l w) as (fin & Hrun & Hreach & Hend).
  exists fin. repeat split; try done.
  apply run_index_bound in Hrun. simpl in Hrun. lia.
Qed.

Lemma run_all_alive (l : list SpriteId) (n i : nat) (w : World) (tr : list event) :
  (∀ s peers w x, killed (sprite_update s peers w) x = killed w x) →
  (∀ s, s ∈ l → killed w s = false) →
  i + n = length l →
  ∃ w',
    run n (mkState i l w tr)
    = Some (Ok tt, mkState (length l) l w'
                     (tr ++ ((λ s, SpriteUpdate s l) <$> drop i l))).
Proof.
  intros Hstable. revert i w tr. induction n as [|n IH]; intros i w tr Halive Hlen.
  - exists w. assert (i = length l) as -> by lia.
    rewrite drop_all, app_nil_r. simpl. unfold step. simpl.
    by rewrite (proj2 (lookup_ge_None l (length l))) by lia.
  - destruct (lookup_lt_is_Some_2 l i) as [s Hs]; [lia|].
    assert (Hk : killed w s = false) by (eapply Halive, list_elem_of_lookup_2, Hs).
    destruct (IH (S i) (sprite_update s l w) (tr ++ [SpriteUpdate s l])) as [w' Hrun].
    + intros x Hx. rewrite Hstable. by apply Halive.
    + lia.
    + exists w'. simpl. unfold step. simpl. rewrite Hs, Hk, Hrun.
      by rewrite (drop_S _ _ _ Hs), fmap_cons, <- app_assoc.
Qed.

(** When no registered sprite is killed and no [update] sets a [killed]
    flag, a pass keeps the registry and calls [update] once per entry, in
    order, each time with the whole registry. *)
Theorem pass_without_killed_updates_all (l : list SpriteId) (w : World) :
  (∀ s peers w x, killed (sprite_update s peers w) x = killed w x) →
  (∀ s, s ∈ l → killed w s = false) →
  ∃ fin,
    sprite_pass l w = Some (Ok tt, fin)
    ∧ registry fin = l
    ∧ trace fin = (λ s, SpriteUpdate s l) <$> l.
Proof.
  intros Hstable Halive.
  destruct (run_all_alive l (length l) 0 w [] Hstable Halive) as [w' Hrun]; [done|].
  eexists. split; [exact Hrun|]. done.
Qed.

(** C3: in one pass of [_update], every [update] call is made on the sprite
    under the iterator and receives the registry exactly as it stands at that
    moment; so whenever a live sprite is processed while a killed peer is
    still in the registry, the peer list of its [update] call contains that
    peer. *)
Theorem update_receives_current_registry (l : list SpriteId) (w : World) :
  ∃ fin,
    sprite_pass l w = Some (Ok tt, fin)
    ∧ (∀ sprite peers,
         SpriteUpdate sprite peers ∈ trace fin →
         ∃ st,
           rtc turn (start l w) st
           ∧ registry st !! index st = Some sprite
           ∧ killed (world st) sprite = false
           ∧ peers = registry st)
    ∧ (∀ st sprite peer,
         rtc turn (start l w) st →
         registry st !! index st = Some sprite →
         killed (world st) sprite = false →
         peer ∈ registry st →
         killed (world st) peer = true →
         ∃ peers, SpriteUpdate sprite peers ∈ trace fin ∧ peer ∈ peers).
Proof.
  destruct (sprite_pass_returns l w) as (fin & Hrun & Hreach & Hend).
  exists fin. split; [exact Hrun|]. split.
  - intros sprite peers Hin. by eapply update_event_origin.
  - intros st sprite peer Hst Hcur Hlive Hpeer _.
    exists (registry st). split; [|exact Hpeer].
    pose proof (turn_update_now st sprite Hcur Hlive) as Hturn.
    assert (Hrest : rtc turn (mkState (S (index st)) (registry st)
                      (sprite_update sprite (registry st) (world st))
                      (trace st ++ [SpriteUpdate sprite (registry st)])) fin).
    { eapply rtc_turn_final; [|exact Hreach|exact Hend]. by eapply rtc_r. }
    apply turn_trace_prefix in Hrest. simpl in Hrest.
    eapply elem_of_prefix; [|exact Hrest].
    apply elem_of_app. right. by apply list_elem_of_singleton.
Qed.


End TickProperties.

(** ** Removal during iteration *)

Section SkipProperties.
Context {World : Type} `{SpriteClass World}.
Import Loop.

Local Abbreviation state := (Loop.state World).

Lemma untouched_app (s : SpriteId) (tr : list event) (e : event) :
  untouched s tr → touches s e = false → untouched s (tr ++ [e]).
Proof.
  intros Htr He. apply Forall_app. split; [done|]. by apply Forall_singleton.
Qed.

Lemma untouched_spec (s : SpriteId) (tr : list event) :
  untouched s tr →
  (∀ peers, SpriteUpdate s peers ∉ tr) ∧ (RemoveWidget s ∉ tr).
Proof.
  unfold untouched. rewrite Forall_forall. intros Hall.
  split; [intros peers|]; intros Hin; apply Hall in Hin; simpl in Hin;
    by rewrite bool_decide_eq_false in Hin.
Qed.

Lemma NoDup_delete_at (l : list SpriteId) (i : nat) : NoDup l → NoDup (delete i l).
Proof. intros Hnd. eapply sublist_NoDup; [exact Hnd|apply sublist_delete]. Qed.

(** In a registry without duplicates, nothing at or after the iterator has
    been updated or removed yet. *)
Lemma ahead_untouched (st0 st : state) :
  rtc turn st0 st →
  NoDup (registry st0) → trace st0 = [] →
  NoDup (registry st)
  ∧ ∀ s j, registry st !! (index st + j) = Some s → untouched s (trace st).
Proof.
  intros Hreach Hnd0 Htr0.
  pattern st. eapply rtc_ind_r; [| |exact Hreach]; clear st Hreach.
  - split; [done|]. intros s j _. rewrite Htr0. constructor.
  - intros st st' _ Hturn [Hnd IH].
    apply turn_inv in Hturn as [x Hcur Hk Hrm Hidx _ Htr|x Hcur Hk Hreg Hidx _ Htr].
    + rewrite (list_remove_NoDup _ _ _ Hnd Hcur) in Hrm. injection Hrm as Hreg.
      rewrite <- Hreg, Hidx, Htr. split.
      { eapply sublist_NoDup; [done|apply sublist_delete]. }
      intros s j Hs. rewrite list_lookup_delete_ge in Hs by lia.
      apply untouched_app.
      * apply (IH s (S (S j))). by replace (index st + S (S j)) with (S (S (index st) + j)) by lia.
      * simpl. apply bool_decide_eq_false. intros ->.
        pose proof (NoDup_lookup _ _ _ _ Hnd Hcur Hs). lia.
    + rewrite Hreg, Hidx, Htr. split; [done|].
      intros s j Hs. apply untouched_app.
      * apply (IH s (S j)). by replace (index st + S j) with (S (index st) + j) by lia.
      * simpl. apply bool_decide_eq_false. intros ->.
        pose proof (NoDup_lookup _ _ _ _ Hnd Hcur Hs). lia.
Qed.

(** In a registry without duplicates, a sprite the iterator has already
    passed without touching stays where it is, untouched, to the end. *)
Lemma behind_stays_untouched (st fin : state) (s : SpriteId) (j : nat) :
  rtc turn st fin →
  NoDup (registry st) →
  j < index st → registry st !! j = Some s →
  untouched s (trace st) →
  registry fin !! j = Some s ∧ untouched s (trace fin).
Proof.
  induction 1 as [st|st st1 fin Hturn _ IH]; intros Hnd Hj Hs Hquiet; [done|].
  apply turn_inv in Hturn as [x Hcur Hk Hrm Hidx _ Htr|x Hcur Hk Hreg Hidx _ Htr].
  - rewrite (list_remove_NoDup _ _ _ Hnd Hcur) in Hrm. injection Hrm as Hreg.
    apply IH.
    + rewrite <- Hreg. eapply sublist_NoDup; [done|apply sublist_delete].
    + lia.
    + rewrite <- Hreg. by rewrite list_lookup_delete_lt.
    + rewrite Htr. apply untouched_app; [done|].
      simpl. apply bool_decide_eq_false. intros ->.
      pose proof (NoDup_lookup _ _ _ _ Hnd Hcur Hs). lia.
  - apply IH.
    + by rewrite Hreg.
    + lia.
    + by rewrite Hreg.
    + rewrite Htr. apply untouched_app; [done|].
      simpl. apply bool_decide_eq_false. intros ->.
      pose proof (NoDup_lookup _ _ _ _ Hnd Hcur Hs). lia.
Qed.

(** C9, for a registry that lists no sprite twice: when a pass of [_update]
    removes the killed sprite under the iterator, the sprite right behind it,
    which moves into the freed position, gets no [update] call and no removal
    in that whole pass, whatever its own [killed] flag; it is still in the
    registry, at that position, when the pass ends. *)
Theorem removal_skips_next_sprite (l : list SpriteId) (w : World)
    (st : state) (sprite next : SpriteId) :
  NoDup l →
  rtc turn (start l w) st →
  registry st !! index st = Some sprite →
  killed (world st) sprite = true →
  registry st !! S (index st) = Some next →
  ∃ fin,
    sprite_pass l w = Some (Ok tt, fin)
    ∧ (∀ peers, SpriteUpdate next peers ∉ trace fin)
    ∧ (RemoveWidget next ∉ trace fin)
    ∧ registry fin !! index st = Some next.
Proof.
  intros Hnd0 Hst Hcur Hk Hnext.
  destruct (sprite_pass_returns l w) as (fin & Hrun & Hreach & Hend).
  exists fin. split; [exact Hrun|].
  destruct (ahead_untouched _ _ Hst Hnd0 eq_refl) as [Hnd Hahead].
  pose proof (turn_remove_now st sprite Hnd Hcur Hk) as Hturn.
  assert (Hrest : rtc turn (mkState (S (index st)) (delete (index st) (registry st))
                    (world st) (trace st ++ [RemoveWidget sprite])) fin).
  { eapply rtc_turn_final; [|exact Hreach|exact Hend].
    eapply rtc_r; [exact Hst|exact Hturn]. }
  destruct (behind_stays_untouched _ _ next (index st) Hrest) as [Hpos Hquiet]; simpl.
  - eapply sublist_NoDup; [done|apply sublist_delete].
  - lia.
  - by rewrite list_lookup_delete_ge.
  - apply untouched_app.
    + apply (Hahead next 1). by replace (index st + 1) with (S (index st)) by lia.
    + simpl. apply bool_decide_eq_false. intros ->.
      pose proof (NoDup_lookup _ _ _ _ Hnd Hcur Hnext). lia.
  - apply untouched_spec in Hquiet as [Hupd Hrm]. done.
Qed.

End SkipProperties.

(** ** The loop on concrete registries *)

Section LoopExamples.
Import Loop.

Local Abbreviation A := 0.
Local Abbreviation B := 1.
Local Abbreviation C := 2.

(** C2 on the registry [A; B; C] with only B killed: the tick leaves [A; C],
    and A's [update] was called once, but C's was not called at all.  On
    [B; C] with both killed, C is still registered after the tick. *)
Theorem update_skips_sprite_after_removed :
  let tick := @_update _ Fixture.inert (BaseEngine _) (1 # 60)%Q in
  (∃ self' tr,
     tick (mkEngine None ∅ [A; B; C] ∅) [B] = Some (Ok tt, (self', [B], tr))
     ∧ sprites self' = [A; C]
     ∧ update_calls A tr = 1
     ∧ update_calls C tr = 0)
  ∧ (∃ self' tr,
       tick (mkEngine None ∅ [B; C] ∅) [B; C] = Some (Ok tt, (self', [B; C], tr))
       ∧ sprites self' = [C]).
Proof. split; eexists _, _; repeat split; reflexivity. Qed.

(** Three live, inert sprites. *)
Lemma pass_without_killed_updates_all_witness :
  ∃ fin,
    @sprite_pass _ Fixture.inert [A; B; C] [] = Some (Ok tt, fin)
    ∧ registry fin = [A; B; C]
    ∧ trace fin = (λ s, SpriteUpdate s [A; B; C]) <$> [A; B; C].
Proof.
  apply (@pass_without_killed_updates_all _ Fixture.inert [A; B; C] []).
  - reflexivity.
  - intros s _. apply bool_decide_eq_false. apply not_elem_of_nil.
Defined.

(** In [A; B; C] with B killed, A's [update] is handed a list with B in it. *)
Lemma update_receives_current_registry_witness :
  ∃ fin peers,
    @sprite_pass _ Fixture.inert [A; B; C] [B] = Some (Ok tt, fin)
    ∧ SpriteUpdate A peers ∈ trace fin
    ∧ B ∈ peers.
Proof.
  destruct (@update_receives_current_registry _ Fixture.inert [A; B; C] [B])
    as (fin & Hrun & _ & Hsees).
  destruct (Hsees (start [A; B; C] [B]) A B) as (peers & Hin & Hpeer).
  - apply rtc_refl.
  - reflexivity.
  - reflexivity.
  - apply list_elem_of_In. simpl. auto.
  - reflexivity.
  - exists fin, peers. done.
Defined.

(** C9 fails as stated when a sprite is listed twice: in [A; B; A] with B
    killed, the pass removes B at position 1 and A moves into position 1, yet
    A did get an [update] call in that pass. *)
Lemma removal_skip_fails_with_duplicate :
  let st := mkState 1 [A; B; A] [B] [SpriteUpdate A [A; B; A]] in
  rtc (@turn _ Fixture.inert) (start [A; B; A] [B]) st
  ∧ registry st !! index st = Some B
  ∧ @killed _ Fixture.inert (world st) B = true
  ∧ registry st !! S (index st) = Some A
  ∧ ∃ fin,
      @sprite_pass _ Fixture.inert [A; B; A] [B] = Some (Ok tt, fin)
      ∧ registry fin !! index st = Some A
      ∧ SpriteUpdate A [A; B; A] ∈ trace fin.
Proof.
  simpl. split; [by apply rtc_once|]. repeat split.
  eexists. split; [reflexivity|]. split; [reflexivity|].
  simpl. apply list_elem_of_In. simpl. auto.
Qed.

(** Hunters [0; 1; 2; 3]: sprite 0 kills 1 when updated, 1 is removed at
    index 1, and 2, which moves there, is passed over. *)
Lemma removal_skips_next_sprite_witness :
  let st := mkState 1 [0; 1; 2; 3] [1] [SpriteUpdate 0 [0; 1; 2; 3]] in
  ∃ fin,
    @sprite_pass _ Fixture.hunters [0; 1; 2; 3] [] = Some (Ok tt, fin)
    ∧ (∀ peers, SpriteUpdate 2 peers ∉ trace fin)
    ∧ (RemoveWidget 2 ∉ trace fin)
    ∧ registry fin !! 1 = Some 2.
Proof.
  apply (@removal_skips_next_sprite _ Fixture.hunters [0; 1; 2; 3] []
           (mkState 1 [0; 1; 2; 3] [1] [SpriteUpdate 0 [0; 1; 2; 3]]) 1 2).
  - apply (bool_decide_unpack _). vm_compute. exact I.
  - apply rtc_once. reflexivity.
  - reflexivity.
  - reflexivity.
  - reflexivity.
Defined.

End LoopExamples.

(** ** An animation tick *)

Section AnimateProperties.
Context {World : Type} `{SpriteClass World}.

Lemma animate_loop_spec (l : list SpriteId) (w : World) (tr : list event) :
  animate_loop l w tr
  = (foldl (λ w sprite, cycle_animation sprite w) w l, tr ++ (CycleAnimation <$> l)).
Proof.
  revert w tr. induction l as [|sprite l IH]; intros w tr; simpl.
  - by rewrite app_nil_r.
  - rewrite IH. by rewrite <- app_assoc.
Qed.

Lemma cycle_calls_fmap (s : SpriteId) (l : list SpriteId) :
  cycle_calls s (CycleAnimation <$> l) = length (List.filter (λ x, bool_decide (x = s)) l).
Proof.
  unfold cycle_calls. induction l as [|x l IH]; [done|].
  rewrite fmap_cons. cbn [List.filter is_cycle_of].
  destruct (bool_decide (x = s)); cbn [length]; by rewrite IH.
Qed.

Lemma occurrences_NoDup (s : SpriteId) (l : list SpriteId) :
  NoDup l → s ∈ l → length (List.filter (λ x, bool_decide (x = s)) l) = 1.
Proof.
  induction 1 as [|x l Hx Hnd IH]; intros Hin; [by apply elem_of_nil in Hin|].
  simpl. destruct (bool_decide (x = s)) eqn:Hxs.
  - apply bool_decide_eq_true in Hxs as ->. simpl. f_equal.
    clear -Hx. induction l as [|y l IH]; [done|]. simpl.
    apply not_elem_of_cons in Hx as [Hne Hx].
    rewrite bool_decide_eq_false_2 by done. by apply IH.
  - apply bool_decide_eq_false in Hxs.
    apply elem_of_cons in Hin as [->|Hin]; [done|]. by apply IH.
Qed.

(** C10, as the code has it: an animation tick calls [cycle_animation] once
    for each entry of the registry, in registry order and whatever the
    sprite's [killed] flag, each call acting on the sprites as the previous
    call left them; so a sprite gets as many calls as the registry lists it,
    exactly one when the registry lists no sprite twice; the engine, its
    registry included, is returned as it was. *)
Theorem animate_cycles_every_sprite_in_order (dt : Q) (self : Engine) (w : World) :
  ∃ w' tr,
    _animate dt self w = (self, w', tr)
    ∧ tr = CycleAnimation <$> sprites self
    ∧ w' = foldl (λ w sprite, cycle_animation sprite w) w (sprites self)
    ∧ (∀ s, cycle_calls s tr
            = length (List.filter (λ x, bool_decide (x = s)) (sprites self)))
    ∧ (NoDup (sprites self) → ∀ s, s ∈ sprites self → cycle_calls s tr = 1).
Proof.
  unfold _animate. rewrite animate_loop_spec. simpl.
  eexists _, _. split; [reflexivity|]. split; [reflexivity|]. split; [reflexivity|].
  split.
  - intros s. apply cycle_calls_fmap.
  - intros Hnd s Hin. rewrite cycle_calls_fmap. by apply occurrences_NoDup.
Qed.

End AnimateProperties.

Section AnimateExamples.

(** C10 fails as stated when a sprite is listed twice: on the registry
    [0; 1; 0] one animation tick calls [cycle_animation] on sprite 0 twice. *)
Lemma animate_cycles_duplicate_twice :
  ∃ w' tr,
    @_animate _ Fixture.inert (1 # 10)%Q (set_sprites [0; 1; 0] Fixture.fresh_engine) []
    = (set_sprites [0; 1; 0] Fixture.fresh_engine, w', tr)
    ∧ 0 ∈ sprites (set_sprites [0; 1; 0] Fixture.fresh_engine)
    ∧ cycle_calls 0 tr = 2.
Proof.
  eexists _, _. split; [reflexivity|]. split; [|reflexivity].
  simpl. by left.
Qed.

(** On [0; 1; 2], with 1 killed, each sprite is cycled once. *)
Lemma animate_cycles_every_sprite_in_order_witness :
  ∃ w' tr,
    @_animate _ Fixture.inert (1 # 10)%Q (set_sprites [0; 1; 2] Fixture.fresh_engine) [1]
    = (set_sprites [0; 1; 2] Fixture.fresh_engine, w', tr)
    ∧ tr = [CycleAnimation 0; CycleAnimation 1; CycleAnimation 2]
    ∧ cycle_calls 1 tr = 1.
Proof.
  destruct (@animate_cycles_every_sprite_in_order _ Fixture.inert (1 # 10)%Q
              (set_sprites [0; 1; 2] Fixture.fresh_engine) [1])
    as (w' & tr & Hrun & Htr & _ & _ & Honce).
  exists w', tr. split; [exact Hrun|]. split; [exact Htr|].
  apply Honce.
  - apply (bool_decide_unpack _). vm_compute. exact I.
  - apply (bool_decide_unpack _). vm_compute. exact I.
Defined.

End AnimateExamples.

(** ** Asset loading *)

Section AssetProperties.
Import Assets.

Lemma load_sheet_inserts (fs : Services) (sp : string)
    (assets assets' : gmap string SpriteConfig) :
  load_sheet fs sp assets = Ok assets' →
  ∃ config, assets' = <[rsplit_first sp := config]> assets.
Proof.
  unfold load_sheet, mbind, result_bind. intros Hload.
  destruct (CoreImage_texture fs sp); [|done].
  destruct (toml_load fs (config_file_of sp)); [|done].
  destruct (subscript _ "animation"); [|done].
  destruct (subscript _ "size"); [|done].
  destruct (subscript _ "modes"); [|done].
  destruct (subscript _ "frame_count"); [|done].
  destruct (SpriteConfig_init fs _ _ _ _ _); [|done].
  injection Hload as <-. by eexists.
Qed.

Lemma load_sheet_malformed (fs : Services) (sp : string)
    (assets : gmap string SpriteConfig) :
  malformed fs (config_file_of sp) → ∃ e, load_sheet fs sp assets = Raise e.
Proof.
  unfold malformed, load_sheet, mbind, result_bind. intros Hbad.
  destruct (CoreImage_texture fs sp); [|by eexists].
  destruct (toml_load fs (config_file_of sp)) as [doc|]; [|by eexists].
  unfold has_required_keys in Hbad. unfold subscript at 1.
  destruct (dict_get "animation" doc) as [[| | | | |fields]|]; try by eexists.
  unfold subscript.
  destruct (dict_get "size" fields); [|by eexists].
  destruct (dict_get "modes" fields); [|by eexists].
  destruct (dict_get "frame_count" fields); [|by eexists].
  by rewrite !bool_decide_eq_true_2 in Hbad by (by eexists).
Qed.

(** The logger never feeds back into what the loader returns. *)
Lemma load_loop_log_irrelevant (fs : Services) (sheets : list string)
    (assets : gmap string SpriteConfig) (log log' : list log_record) :
  (load_loop fs sheets assets log).1 = (load_loop fs sheets assets log').1.
Proof.
  revert assets log log'. induction sheets as [|sp rest IH]; intros assets log log';
    simpl; [done|].
  destruct (negb (path_exists fs (config_file_of sp))); [apply IH|].
  destruct (load_sheet fs sp assets); [apply IH|done].
Qed.

Lemma load_loop_skip (fs : Services) (before after : list string) (sp : string)
    (assets : gmap string SpriteConfig) (log : list log_record) :
  path_exists fs (config_file_of sp) = false →
  (load_loop fs (before ++ sp :: after) assets log).1
  = (load_loop fs (before ++ after) assets log).1.
Proof.
  intros Hmissing. revert assets log.
  induction before as [|x before IH]; intros assets log; simpl.
  - rewrite Hmissing. simpl. apply load_loop_log_irrelevant.
  - destruct (negb (path_exists fs (config_file_of x))); [apply IH|].
    destruct (load_sheet fs x assets); [apply IH|done].
Qed.

(** The loop reads the directory listing only through its argument. *)
Lemma load_loop_listing_irrelevant (d1 d2 : result (list string))
    (exist : string → bool) (image : string → result Texture)
    (toml : string → result toml_dict)
    (init : string → Texture → toml_value → toml_value → toml_value
            → result SpriteConfig)
    (sheets : list string)
    (assets : gmap string SpriteConfig) (log : list log_record) :
  load_loop (mkServices d1 exist image toml init) sheets assets log
  = load_loop (mkServices d2 exist image toml init) sheets assets log.
Proof.
  revert assets log. induction sheets as [|sp rest IH]; intros assets log; [done|].
  simpl. destruct (negb (exist (config_file_of sp))); [apply IH|].
  change (load_sheet (mkServices d1 exist image toml init) sp assets)
    with (load_sheet (mkServices d2 exist image toml init) sp assets).
  destruct (load_sheet (mkServices d2 exist image toml init) sp assets); [apply IH|done].
Qed.

(** Every key of the returned dict names a sheet whose config file exists. *)
Lemma load_loop_keys (fs : Services) (sheets : list string)
    (assets loaded : gmap string SpriteConfig) (log : list log_record) :
  (∀ k, is_Some (assets !! k) → path_exists fs (k +:+ "_config.toml") = true) →
  (load_loop fs sheets assets log).1 = Ok loaded →
  ∀ k, is_Some (loaded !! k) → path_exists fs (k +:+ "_config.toml") = true.
Proof.
  revert assets log. induction sheets as [|sp rest IH]; intros assets log Hinv; simpl.
  - intros [= <-]. exact Hinv.
  - destruct (path_exists fs (config_file_of sp)) eqn:Hexists; simpl.
    + destruct (load_sheet fs sp assets) as [assets'|] eqn:Hload; [|done].
      apply IH. apply load_sheet_inserts in Hload as [config ->].
      intros k. destruct (decide (rsplit_first sp = k)) as [<-|Hne].
      * intros _. exact Hexists.
      * rewrite lookup_insert_ne by done. apply Hinv.
    + by apply IH.
Qed.

Lemma load_loop_malformed (fs : Services) (sheets : list string) (sp : string)
    (assets : gmap string SpriteConfig) (log : list log_record) :
  sp ∈ sheets →
  path_exists fs (config_file_of sp) = true →
  malformed fs (config_file_of sp) →
  ∃ e, (load_loop fs sheets assets log).1 = Raise e.
Proof.
  intros Hin Hexists Hbad. revert assets log.
  induction sheets as [|x rest IH]; intros assets log; [by apply elem_of_nil in Hin|].
  simpl. destruct (decide (x = sp)) as [->|Hne].
  - rewrite Hexists. simpl.
    destruct (load_sheet_malformed fs sp assets Hbad) as [e ->]. by exists e.
  - apply elem_of_cons in Hin as [->|Hin]; [done|].
    destruct (negb (path_exists fs (config_file_of x))); [by apply IH|].
    destruct (load_sheet fs x assets) as [assets'|e]; [by apply IH|by exists e].
Qed.

(** C5: an image in the sprites directory whose [<base>_config.toml] does
    not exist is stepped over: the loop logs and goes on with the remaining
    sheets and the same dict, the call returns or raises exactly as it would
    with that image absent from the directory, and a dict it returns has no
    key for that image's base name. *)
Theorem missing_config_skips_sheet (fs : Services)
    (before after : list string) (sp : string) :
  listdir fs = Ok (before ++ sp :: after) →
  is_image sp →
  path_exists fs (config_file_of sp) = false →
  (∀ rest assets log,
     load_loop fs (sp :: rest) assets log
     = load_loop fs rest assets (log ++ [LogError (no_config_message sp)]))
  ∧ (load_sprite_sheets fs).1
    = (load_sprite_sheets
         (mkServices (Ok (before ++ after)) (path_exists fs)
            (CoreImage_texture fs) (toml_load fs) (SpriteConfig_init fs))).1
  ∧ (∀ loaded,
       (load_sprite_sheets fs).1 = Ok loaded → loaded !! rsplit_first sp = None).
Proof.
  intros Hdir Himg Hmissing. split; [|split].
  - intros rest assets log. simpl. by rewrite Hmissing.
  - unfold load_sprite_sheets. rewrite Hdir. simpl.
    rewrite !filter_app, filter_cons_True by done.
    rewrite (load_loop_skip fs) by done.
    destruct fs as [d exist image toml init]. simpl.
    by rewrite (load_loop_listing_irrelevant d (Ok (before ++ after))).
  - intros loaded Hload. unfold load_sprite_sheets in Hload. rewrite Hdir in Hload.
    apply eq_None_not_Some. intros Hkey.
    eapply load_loop_keys in Hkey; [|..|exact Hload].
    + unfold config_file_of in Hmissing. congruence.
    + intros k [? Hk]. by rewrite lookup_empty in Hk.
Qed.

(** [hero.png] without [hero_config.toml], next to a complete coin sheet. *)
Lemma missing_config_skips_sheet_witness :
  (load_sprite_sheets Fixture.coin_only).1
  = (load_sprite_sheets
       (mkServices (Ok ["coin.png"; "coin_config.toml"]%string)
          (path_exists Fixture.coin_only)
          (CoreImage_texture Fixture.coin_only)
          (toml_load Fixture.coin_only)
          (SpriteConfig_init Fixture.coin_only))).1
  ∧ (∀ loaded,
       (load_sprite_sheets Fixture.coin_only).1 = Ok loaded →
       loaded !! "hero"%string = None).
Proof.
  apply (missing_config_skips_sheet Fixture.coin_only []
           ["coin.png"; "coin_config.toml"]%string "hero.png").
  - reflexivity.
  - apply (bool_decide_unpack _). vm_compute. exact I.
  - reflexivity.
Defined.

(** C4: when the directory lists an image whose config file exists but does
    not parse, or lacks the [animation] table or one of [size], [modes] and
    [frame_count] in it, [load_sprite_sheets] raises and returns no dict at
    all, and [Engine.__init__] raises with it, so no engine gets an [assets]
    mapping out of that call. *)
Theorem malformed_config_fails_load (fs : Services) (names : list string)
    (sp : string) (host : Init.Host) :
  listdir fs = Ok names →
  sp ∈ names →
  is_image sp →
  path_exists fs (config_file_of sp) = true →
  malformed fs (config_file_of sp) →
  ∃ e,
    (load_sprite_sheets fs).1 = Raise e
    ∧ (Init.__init__ fs host).1 = Raise e.
Proof.
  intros Hdir Hin Himg Hexists Hbad.
  assert (Hraise : ∃ e, (load_sprite_sheets fs).1 = Raise e).
  { unfold load_sprite_sheets. rewrite Hdir.
    apply (load_loop_malformed fs _ sp); [|done..].
    by apply list_elem_of_filter. }
  destruct Hraise as [e He]. exists e. split; [exact He|].
  unfold Init.__init__. simpl.
  destruct (load_sprite_sheets fs) as [r log]. simpl in He. by rewrite He.
Qed.

(** [hero_config.toml] without [modes], listed after a complete coin sheet. *)
Lemma malformed_config_fails_load_witness :
  ∃ e,
    (load_sprite_sheets Fixture.hero_malformed).1 = Raise e
    ∧ (Init.__init__ Fixture.hero_malformed Fixture.idle_host).1 = Raise e.
Proof.
  apply (malformed_config_fails_load Fixture.hero_malformed
           ["coin.png"; "coin_config.toml"; "hero.png"; "hero_config.toml"]%string
           "hero.png" Fixture.idle_host).
  - reflexivity.
  - apply (bool_decide_unpack _). vm_compute. exact I.
  - apply (bool_decide_unpack _). vm_compute. exact I.
  - reflexivity.
  - reflexivity.
Defined.

End AssetProperties.

(** * Further properties *)

(** ** Key events *)

Section DispatchProperties.
Import Input Dispatch.

Lemma set_pressed_keys_same (self : Engine) :
  set_pressed_keys (pressed_keys self) self = self.
Proof. by destruct self. Qed.

Lemma handle_pressed (self self' : Engine) (ev : key_event) (k : string) :
  handle self ev = (Ok tt, self') →
  is_pressed self' k
  = if decide (event_key ev = k) then is_down ev else is_pressed self k.
Proof.
  destruct ev as [kc text modifiers|kc]; simpl.
  - intros [= <-]. unfold is_pressed. simpl.
    destruct (decide (kc.2 = k)) as [->|Hne].
    + apply bool_decide_eq_true. apply elem_of_union. left. by apply elem_of_singleton.
    + apply bool_decide_ext. rewrite elem_of_union, elem_of_singleton.
      split; [intros [Heq|Hin]; [by subst|done]|by right].
  - unfold _on_keyboard_up. destruct (decide (kc.2 ∈ pressed_keys self)); [|done].
    intros [= <-]. unfold is_pressed. simpl.
    destruct (decide (kc.2 = k)) as [->|Hne].
    + apply bool_decide_eq_false. rewrite elem_of_difference, elem_of_singleton. tauto.
    + apply bool_decide_ext. rewrite elem_of_difference, elem_of_singleton.
      split; [by intros [Hin _]|intros Hin; split; [done|by intros ->]].
Qed.

(** Pressing a key that was not pressed and releasing it again gives back
    the engine exactly as it was. *)
Theorem release_after_press_restores (self : Engine) (kc : key_code)
    (text : string) (modifiers : list string) :
  is_pressed self kc.2 = false →
  _on_keyboard_up (_on_keyboard_down self kc text modifiers) kc = (Ok tt, self).
Proof.
  intros Hnot%is_pressed_false.
  rewrite key_up_pressed.
  - f_equal. unfold _on_keyboard_down, set_pressed_keys. simpl.
    rewrite <- (set_pressed_keys_same self) at 5. unfold set_pressed_keys. f_equal.
    apply set_eq. intros x. rewrite elem_of_difference, elem_of_union, elem_of_singleton.
    split; [tauto|]. intros Hx. split; [by right|]. by intros ->.
  - simpl. apply elem_of_union. left. by apply elem_of_singleton.
Qed.

Lemma release_after_press_restores_witness :
  _on_keyboard_up (_on_keyboard_down Fixture.fresh_engine Fixture.key_a "a" []) Fixture.key_a
  = (Ok tt, Fixture.fresh_engine).
Proof.
  apply (release_after_press_restores Fixture.fresh_engine Fixture.key_a "a" []).
  reflexivity.
Defined.

(** Releasing a key twice: once a release has gone through, a second
    release of the same key raises [KeyError] and changes nothing. *)
Theorem second_release_raises (self self' : Engine) (kc : key_code) :
  _on_keyboard_up self kc = (Ok tt, self') →
  _on_keyboard_up self' kc = (Raise (KeyError kc.2), self').
Proof.
  unfold _on_keyboard_up at 1.
  destruct (decide (kc.2 ∈ pressed_keys self)); [|done]. intros [= <-].
  unfold _on_keyboard_up. rewrite decide_False; [done|].
  simpl. rewrite elem_of_difference, elem_of_singleton. tauto.
Qed.

Lemma second_release_raises_witness :
  _on_keyboard_up Fixture.fresh_engine Fixture.key_a
  = (Raise (KeyError "a"), Fixture.fresh_engine).
Proof.
  apply (second_release_raises
           (_on_keyboard_down Fixture.fresh_engine Fixture.key_a "a" [])
           Fixture.fresh_engine Fixture.key_a).
  reflexivity.
Defined.

(** A key handler, whether it returns or raises, touches nothing but the
    pressed state of its own key: the keyboard reference, the registry, the
    assets and every other key stay as they were. *)
Theorem key_handlers_frame (self self' : Engine) (ev : key_event) (r : result unit) :
  handle self ev = (r, self') →
  _keyboard self' = _keyboard self
  ∧ sprites self' = sprites self
  ∧ assets self' = assets self
  ∧ ∀ k, k ≠ event_key ev → is_pressed self' k = is_pressed self k.
Proof.
  intros Hev. destruct r as [[]|e].
  - repeat split.
    1-3: destruct ev as [kc text modifiers|kc]; simpl in Hev;
      [injection Hev as <-; done|];
      unfold _on_keyboard_up in Hev;
      destruct (decide (kc.2 ∈ pressed_keys self)); [|done];
      by injection Hev as <-.
    intros k Hk. rewrite (handle_pressed _ _ _ k Hev). by rewrite decide_False.
  - destruct ev as [kc text modifiers|kc]; simpl in Hev; [done|].
    unfold _on_keyboard_up in Hev.
    destruct (decide (kc.2 ∈ pressed_keys self)); [done|].
    by injection Hev as _ <-.
Qed.

Lemma key_handlers_frame_witness :
  let self' := _on_keyboard_down Fixture.fresh_engine Fixture.key_a "a" [] in
  _keyboard self' = None
  ∧ sprites self' = []
  ∧ assets self' = ∅
  ∧ ∀ k, k ≠ "a"%string → is_pressed self' k = is_pressed Fixture.fresh_engine k.
Proof.
  apply (key_handlers_frame Fixture.fresh_engine _
           (KeyDown Fixture.key_a "a" []) (Ok tt)).
  reflexivity.
Defined.

(** After any run of key events in which no handler raised, a key is
    pressed exactly when its last event was a press; a key with no event is
    as it was before. *)
Theorem pressed_after_events (evs : list key_event) (self final : Engine) (k : string) :
  handle_all self evs = (Ok tt, final) →
  is_pressed final k = default (is_pressed self k) (last_event_for k evs).
Proof.
  revert self. induction evs as [|ev rest IH]; intros self; simpl.
  - by intros [= <-].
  - destruct (handle self ev) as [[[]|e] self1] eqn:Hev; [|done].
    intros Hrest. rewrite (IH self1 Hrest).
    destruct (last_event_for k rest); [done|]. simpl.
    rewrite (handle_pressed _ _ _ k Hev). by destruct (decide (event_key ev = k)).
Qed.

Lemma pressed_after_events_witness :
  let evs := [KeyDown Fixture.key_a "a" []; KeyDown (98%Z, "b"%string) "b" [];
              KeyUp Fixture.key_a] in
  is_pressed (handle_all Fixture.fresh_engine evs).2 "b"
  = default (is_pressed Fixture.fresh_engine "b") (last_event_for "b" evs).
Proof.
  intros evs.
  apply (pressed_after_events evs Fixture.fresh_engine
           (handle_all Fixture.fresh_engine evs).2 "b").
  reflexivity.
Defined.

End DispatchProperties.

(** ** Closing the keyboard *)

Section CloseProperties.
Import Kbd.

Lemma drop_first_appended (cb : callback) (l : list callback) :
  cb ∉ l → drop_first cb (l ++ [cb]) = l.
Proof.
  induction l as [|c l IH]; simpl; intros Hnot.
  - by rewrite decide_True.
  - apply not_elem_of_cons in Hnot as [Hne Hnot].
    rewrite decide_False by done. by rewrite IH.
Qed.

(** [_keyboard_closed] works once: when it has returned, calling it again
    raises [AttributeError] ([self._keyboard] is [None]) and changes
    nothing. *)
Theorem keyboard_closed_twice_raises (self self' : Engine) (kb kb' : Keyboard) :
  _keyboard_closed self kb = (Ok tt, (self', kb')) →
  _keyboard_closed self' kb' = (Raise AttributeError, (self', kb')).
Proof.
  unfold _keyboard_closed at 1. destruct (_keyboard self) as [[]|]; [|done].
  intros [= <- <-]. reflexivity.
Qed.

Lemma keyboard_closed_twice_raises_witness :
  _keyboard_closed Fixture.fresh_engine (mkKeyboard [] [Engine_on_keyboard_up])
  = (Raise AttributeError,
     (Fixture.fresh_engine, mkKeyboard [] [Engine_on_keyboard_up])).
Proof.
  apply (keyboard_closed_twice_raises
           (set__keyboard (Some WindowKeyboard) Fixture.fresh_engine)
           Fixture.fresh_engine
           (mkKeyboard [Engine_on_keyboard_down] [Engine_on_keyboard_up])
           (mkKeyboard [] [Engine_on_keyboard_up])).
  reflexivity.
Defined.

(** Binding as [__init__] does and then closing: on a keyboard that knew
    neither handler of the engine, the key-down observers are back to what
    they were, while the key-up observers keep [_on_keyboard_up] at their
    end, whatever other observers the keyboard has. *)
Theorem acquire_then_close (self : Engine) (kb : Keyboard) :
  Engine_on_keyboard_down ∉ key_down_observers kb →
  Engine_on_keyboard_down ∉ key_up_observers kb →
  Engine_on_keyboard_up ∉ key_up_observers kb →
  let '(self1, kb1) := acquire_keyboard self kb in
  _keyboard_closed self1 kb1
  = (Ok tt,
     (set__keyboard None self,
      mkKeyboard (key_down_observers kb)
                 (key_up_observers kb ++ [Engine_on_keyboard_up]))).
Proof.
  intros Hdown Hup Hfree.
  unfold _keyboard_closed. simpl. unfold add_observer.
  rewrite !decide_False by done. do 3 f_equal.
  - by apply drop_first_appended.
  - apply drop_first_absent. intros Hin. apply elem_of_app in Hin as [Hin|Hin]; [done|].
    by apply list_elem_of_singleton in Hin.
Qed.

Lemma acquire_then_close_witness :
  let '(self1, kb1) :=
    acquire_keyboard Fixture.fresh_engine (mkKeyboard [Foreign 1] [Foreign 2]) in
  _keyboard_closed self1 kb1
  = (Ok tt,
     (Fixture.fresh_engine, mkKeyboard [Foreign 1] [Foreign 2; Engine_on_keyboard_up])).
Proof.
  apply (acquire_then_close Fixture.fresh_engine (mkKeyboard [Foreign 1] [Foreign 2])).
  - apply (bool_decide_unpack _). vm_compute. exact I.
  - apply (bool_decide_unpack _). vm_compute. exact I.
  - apply (bool_decide_unpack _). vm_compute. exact I.
Defined.

End CloseProperties.

(** ** Registering sprites *)

Section AttachProperties.
Context {Tree : Type} (add_widget : SpriteId → Tree → result unit * Tree).

Lemma add_widgets_app (a b : list SpriteId) (tree tree1 : Tree) :
  add_widgets add_widget a tree = (Ok tt, tree1) →
  add_widgets add_widget (a ++ b) tree = add_widgets add_widget b tree1.
Proof.
  revert tree. induction a as [|s a IH]; intros tree; simpl.
  - by intros [= <-].
  - destruct (add_widget s tree) as [[[]|e] tree']; [apply IH|done].
Qed.

(** Registering in batches: when a first batch has been added without a
    refusal, adding a second batch to the result is the same as adding both
    at once; [add_sprite] is the batch of one. *)
Theorem add_sprites_in_batches (a b : list SpriteId) (self self1 : Engine)
    (tree tree1 : Tree) :
  add_sprites add_widget a self tree = (Ok tt, (self1, tree1)) →
  add_sprites add_widget (a ++ b) self tree = add_sprites add_widget b self1 tree1
  ∧ ∀ s, add_sprite add_widget s self1 tree1 = add_sprites add_widget [s] self1 tree1.
Proof.
  unfold add_sprites.
  destruct (add_widgets add_widget a tree) as [r t1] eqn:Ha.
  intros [= -> <- ->]. split.
  - rewrite (add_widgets_app _ _ _ _ Ha). simpl.
    destruct (add_widgets add_widget b tree1). by rewrite app_assoc.
  - intros s. unfold add_sprite. simpl.
    by destruct (add_widget s tree1) as [[[]|e] t'].
Qed.

(** When the host refuses a widget in the middle of a batch, [add_sprites]
    raises, the widgets behind the refused one are never attached, and yet
    the registry already lists the whole batch, the refused sprite and the
    unattached ones included. *)
Theorem add_sprites_refused (before after : list SpriteId) (s : SpriteId) (e : exn)
    (self : Engine) (tree tree1 tree2 : Tree) :
  add_widgets add_widget before tree = (Ok tt, tree1) →
  add_widget s tree1 = (Raise e, tree2) →
  add_sprites add_widget (before ++ s :: after) self tree
  = (Raise e, (set_sprites (sprites self ++ before ++ s :: after) self, tree2)).
Proof.
  intros Hbefore Hrefused. unfold add_sprites.
  rewrite (add_widgets_app _ _ _ _ Hbefore). simpl. by rewrite Hrefused.
Qed.

End AttachProperties.

Section AttachExamples.

Lemma add_sprites_in_batches_witness :
  add_sprites Fixture.attach_once ([0; 1] ++ [2]) Fixture.fresh_engine []
  = add_sprites Fixture.attach_once [2] (set_sprites [0; 1] Fixture.fresh_engine) [1; 0]
  ∧ ∀ s, add_sprite Fixture.attach_once s (set_sprites [0; 1] Fixture.fresh_engine) [1; 0]
         = add_sprites Fixture.attach_once [s] (set_sprites [0; 1] Fixture.fresh_engine) [1; 0].
Proof.
  apply (add_sprites_in_batches Fixture.attach_once [0; 1] [2] Fixture.fresh_engine).
  reflexivity.
Defined.

Lemma add_sprites_refused_witness :
  add_sprites Fixture.attach_once ([0; 1] ++ 0 :: [2]) Fixture.fresh_engine []
  = (Raise ValueError, (set_sprites [0; 1; 0; 2] Fixture.fresh_engine, [1; 0])).
Proof.
  apply (add_sprites_refused Fixture.attach_once [0; 1] [2] 0 ValueError
           Fixture.fresh_engine [] [1; 0] [1; 0]); reflexivity.
Defined.

End AttachExamples.

(** ** What a pass comes to *)

Section Survivors.
Context (dead : SpriteId → bool).

Lemma list_ind_pairs (P : list SpriteId → Prop) :
  P [] → (∀ x, P [x]) → (∀ x y l, P l → P (y :: l) → P (x :: y :: l)) →
  ∀ l, P l.
Proof.
  intros Hnil Hone Hstep l.
  assert (Hboth : P l ∧ ∀ x, P (x :: l)); [|by destruct Hboth].
  induction l as [|y l [IH1 IH2]]; [by split|].
  split; [apply IH2|]. intros x. by apply Hstep.
Qed.

Lemma survivors_sublist (l : list SpriteId) : survivors dead l `sublist_of` l.
Proof.
  induction l as [|x|x y l IH1 IH2] using list_ind_pairs.
  - constructor.
  - simpl. destruct (dead x); [by apply sublist_cons|done].
  - cbn [survivors]. cbn [survivors] in IH2. destruct (dead x).
    + by apply sublist_cons, sublist_skip.
    + by apply sublist_skip.
Qed.

(** A pass takes out killed sprites only. *)
Lemma survivors_keep_live (l : list SpriteId) :
  List.filter (λ x, negb (dead x)) (survivors dead l)
  = List.filter (λ x, negb (dead x)) l.
Proof.
  induction l as [|x|x y l IH1 IH2] using list_ind_pairs.
  - done.
  - simpl. destruct (dead x) eqn:Hx; simpl; by rewrite ?Hx.
  - cbn [survivors List.filter] in *.
    destruct (dead x) eqn:Hx; cbn [List.filter negb]; rewrite ?Hx; cbn [negb].
    + by rewrite IH1.
    + by rewrite IH2.
Qed.

(** A pass takes out at least one killed sprite when there is one. *)
Lemma survivors_fewer_dead (l : list SpriteId) :
  length (List.filter dead (survivors dead l)) ≤ length (List.filter dead l)
  ∧ (0 < length (List.filter dead l) →
     length (List.filter dead (survivors dead l)) < length (List.filter dead l)).
Proof.
  induction l as [|x|x y l IH1 IH2] using list_ind_pairs.
  - simpl. lia.
  - simpl. destruct (dead x) eqn:Hx; simpl; rewrite ?Hx; simpl; lia.
  - cbn [survivors List.filter] in *.
    destruct (dead x) eqn:Hx; cbn [List.filter]; rewrite ?Hx.
    + destruct (dead y); cbn [length]; lia.
    + destruct (dead y); cbn [length] in *; lia.
Qed.

Lemma survivors_none_dead (l : list SpriteId) :
  length (List.filter dead l) = 0 → survivors dead l = l.
Proof.
  induction l as [|x l IH]; [done|]. cbn [List.filter survivors].
  destruct (dead x); [done|]. intros Hl. by rewrite IH.
Qed.

End Survivors.

Lemma survivors_ext (f g : SpriteId → bool) (l : list SpriteId) :
  (∀ x, f x = g x) → survivors f l = survivors g l.
Proof.
  intros Hfg. induction l as [|x|x y l IH1 IH2] using list_ind_pairs.
  - done.
  - simpl. by rewrite Hfg.
  - cbn [survivors] in *. rewrite (Hfg x).
    destruct (g x); [by rewrite IH1|by rewrite IH2].
Qed.

Lemma updated_ext (f g : SpriteId → bool) (l : list SpriteId) :
  (∀ x, f x = g x) → updated f l = updated g l.
Proof.
  intros Hfg. induction l as [|x|x y l IH1 IH2] using list_ind_pairs.
  - done.
  - simpl. by rewrite Hfg.
  - cbn [updated] in *. rewrite (Hfg x).
    destruct (g x); [by rewrite IH1|by rewrite IH2].
Qed.

Lemma list_remove_middle (done rest : list SpriteId) (x : SpriteId) :
  x ∉ done → list_remove x (done ++ x :: rest) = Some (done ++ rest).
Proof.
  induction done as [|y done IH]; simpl; intros Hnot.
  - by rewrite decide_True.
  - apply not_elem_of_cons in Hnot as [Hne Hnot].
    rewrite decide_False by done. by rewrite IH.
Qed.

Section PassProperties.
Context {World : Type} `{SpriteClass World}.
Import Loop.

Local Abbreviation state := (Loop.state World).

Lemma run_exhausted (n : nat) (st : state) :
  step st = Exhausted → run n st = Some (Ok tt, st).
Proof. intros Hex. destruct n; simpl; by rewrite Hex. Qed.

Lemma run_continue (n : nat) (st st' : state) :
  step st = Continue st' → run (S n) st = run n st'.
Proof. intros Hstep. simpl. by rewrite Hstep. Qed.

Lemma update_targets_snoc_update (tr : list event) (s : SpriteId) (peers : list SpriteId) :
  update_targets (tr ++ [SpriteUpdate s peers]) = update_targets tr ++ [s].
Proof. unfold update_targets. by rewrite omap_app. Qed.

Lemma update_targets_snoc_remove (tr : list event) (s : SpriteId) :
  update_targets (tr ++ [RemoveWidget s]) = update_targets tr.
Proof. unfold update_targets. rewrite omap_app. simpl. by rewrite app_nil_r. Qed.

(** The loop from the middle of a registry without duplicates: [done] is
    behind the iterator, [rest] in front of it. *)
Lemma run_survivors (n : nat) (done rest : list SpriteId) (w : World) (tr : list event) :
  flags_stable →
  length rest ≤ n →
  NoDup (done ++ rest) →
  ∃ fin,
    run n (mkState (length done) (done ++ rest) w tr) = Some (Ok tt, fin)
    ∧ registry fin = done ++ survivors (killed w) rest
    ∧ (∀ x, killed (world fin) x = killed w x)
    ∧ update_targets (trace fin) = update_targets tr ++ updated (killed w) rest.
Proof.
  intros Hstable. revert done rest w tr.
  induction n as [|n IH]; intros done rest w tr Hlen Hnd.
  - destruct rest; [|simpl in Hlen; lia].
    eexists. split; [apply run_exhausted, step_exhausted; simpl; rewrite length_app; simpl; lia|].
    simpl. by rewrite !app_nil_r.
  - destruct rest as [|x rest].
    { eexists. split; [apply run_exhausted, step_exhausted; simpl; rewrite length_app; simpl; lia|].
      simpl. by rewrite !app_nil_r. }
    assert (Hcur : (done ++ x :: rest) !! length done = Some x)
      by by apply list_lookup_middle.
    assert (Hx : x ∉ done).
    { apply NoDup_app in Hnd as (_ & Hsep & _). intros Hin.
      apply (Hsep x Hin). by left. }
    destruct (killed w x) eqn:Hk.
    + assert (Hnd' : NoDup (done ++ rest)).
      { rewrite <- (delete_middle done rest x). by apply NoDup_delete_at. }
      rewrite (run_continue _ _
                 (mkState (S (length done)) (done ++ rest) w (tr ++ [RemoveWidget x]))).
      2:{ unfold step. simpl. by rewrite Hcur, Hk, list_remove_middle. }
      destruct rest as [|y rest].
      * eexists. split; [apply run_exhausted, step_exhausted; simpl|].
        { rewrite length_app. simpl. lia. }
        simpl. rewrite Hk, update_targets_snoc_remove. by rewrite !app_nil_r.
      * destruct (IH (done ++ [y]) rest w (tr ++ [RemoveWidget x]))
          as (fin & Hrun & Hreg & Hflags & Htargets).
        { simpl in Hlen. lia. }
        { by rewrite <- app_assoc. }
        exists fin. split.
        { rewrite <- Hrun. f_equal. f_equal.
          - rewrite length_app. simpl. lia.
          - by rewrite <- app_assoc. }
        cbn [survivors updated]. rewrite Hk.
        rewrite Hreg, Htargets, update_targets_snoc_remove, <- app_assoc. done.
    + set (w1 := sprite_update x (done ++ x :: rest) w).
      rewrite (run_continue _ _
                 (mkState (S (length done)) (done ++ x :: rest) w1
                    (tr ++ [SpriteUpdate x (done ++ x :: rest)]))).
      2:{ unfold step. simpl. by rewrite Hcur, Hk. }
      destruct (IH (done ++ [x]) rest w1 (tr ++ [SpriteUpdate x (done ++ x :: rest)]))
        as (fin & Hrun & Hreg & Hflags & Htargets).
      { simpl in Hlen. lia. }
      { by rewrite <- app_assoc. }
      assert (Hsame : ∀ y, killed w1 y = killed w y) by (intros y; apply Hstable).
      exists fin. split.
      { rewrite <- Hrun. f_equal. f_equal.
        - rewrite length_app. simpl. lia.
        - by rewrite <- app_assoc. }
      cbn [survivors updated]. rewrite Hk.
      rewrite Hreg, Htargets, update_targets_snoc_update, <- !app_assoc.
      rewrite (survivors_ext _ _ _ Hsame), (updated_ext _ _ _ Hsame).
      split; [done|]. split; [|done].
      intros y. by rewrite Hflags.
Qed.

(** What one pass does to a registry that lists no sprite twice, when no
    [update] changes a [killed] flag: going down the list, a live sprite is
    updated and kept, a killed sprite is removed and the sprite right behind
    it is neither updated nor removed. *)
Theorem pass_outcome (l : list SpriteId) (w : World) :
  flags_stable →
  NoDup l →
  ∃ fin,
    sprite_pass l w = Some (Ok tt, fin)
    ∧ registry fin = survivors (killed w) l
    ∧ update_targets (trace fin) = updated (killed w) l.
Proof.
  intros Hstable Hnd.
  destruct (run_survivors (length l) [] l w [] Hstable) as (fin & Hrun & Hreg & _ & Htr);
    [done|done|].
  exists fin. done.
Qed.

Lemma list_remove_filter (f : SpriteId → bool) (x : SpriteId) (l l' : list SpriteId) :
  list_remove x l = Some l' → f x = false → List.filter f l' = List.filter f l.
Proof.
  intros Hrm Hx. revert l' Hrm. induction l as [|y l IH]; intros l' Hrm; [done|].
  simpl in Hrm. destruct (decide (x = y)) as [<-|Hne].
  - injection Hrm as <-. simpl. by rewrite Hx.
  - destruct (list_remove x l) as [l0|]; [|done]. injection Hrm as <-.
    simpl. by rewrite (IH l0).
Qed.

(** A pass never takes a live sprite out: when no [update] changes a
    [killed] flag, the live sprites of the registry are the same, in the same
    order, after the pass, every sprite it detached was killed, and the
    registry has not grown.  Duplicates in the registry do not matter here. *)
Theorem pass_keeps_live_sprites (l : list SpriteId) (w : World) :
  flags_stable →
  ∃ fin,
    sprite_pass l w = Some (Ok tt, fin)
    ∧ List.filter (λ x, negb (killed w x)) (registry fin)
      = List.filter (λ x, negb (killed w x)) l
    ∧ (∀ s, RemoveWidget s ∈ trace fin → killed w s = true)
    ∧ length (registry fin) ≤ length l.
Proof.
  intros Hstable.
  destruct (sprite_pass_returns l w) as (fin & Hrun & Hreach & _).
  exists fin. split; [exact Hrun|].
  assert (Hinv : (∀ x, killed (world fin) x = killed w x)
                 ∧ List.filter (λ x, negb (killed w x)) (registry fin)
                   = List.filter (λ x, negb (killed w x)) l
                 ∧ (∀ s, RemoveWidget s ∈ trace fin → killed w s = true)
                 ∧ length (registry fin) ≤ length l); [|by destruct Hinv].
  pattern fin. eapply rtc_ind_r; [| |exact Hreach]; clear fin Hrun Hreach.
  - simpl. repeat split; try done. intros s Hin. by apply elem_of_nil in Hin.
  - intros st st' _ Hturn (Hflags & Hlive & Hremoved & Hlen).
    apply turn_inv in Hturn as [x Hcur Hk Hrm _ Hw Htr|x Hcur Hk Hreg _ Hw Htr].
    + rewrite Hflags in Hk.
      destruct (list_remove_lookup _ _ _ Hcur) as (l' & Hrm' & Hlen').
      rewrite Hrm in Hrm'. injection Hrm' as <-.
      repeat split.
      * intros y. by rewrite Hw.
      * rewrite <- Hlive. eapply list_remove_filter; [exact Hrm|]. by rewrite Hk.
      * intros s Hin. rewrite Htr in Hin. apply elem_of_app in Hin as [Hin|Hin]; [auto|].
        apply list_elem_of_singleton in Hin. by injection Hin as ->.
      * lia.
    + repeat split.
      * intros y. by rewrite Hw, Hstable.
      * by rewrite Hreg.
      * intros s Hin. rewrite Htr in Hin. apply elem_of_app in Hin as [Hin|Hin]; [auto|].
        by apply list_elem_of_singleton in Hin.
      * by rewrite Hreg.
Qed.

Lemma filter_live_all (f : SpriteId → bool) (l : list SpriteId) :
  length (List.filter f l) = 0 → List.filter (λ x, negb (f x)) l = l.
Proof.
  induction l as [|x l IH]; [done|]. simpl.
  destruct (f x); [done|]. simpl. intros Hl. by rewrite IH.
Qed.

Lemma set_sprites_same (self : Engine) : set_sprites (sprites self) self = self.
Proof. by destruct self. Qed.

(** One tick of the plain [Engine] on a registry without duplicates. *)
Lemma base_tick_outcome (dt : Q) (self : Engine) (w : World) :
  flags_stable →
  NoDup (sprites self) →
  ∃ w' tr,
    @_update _ _ (BaseEngine World) dt self w
    = Some (Ok tt, (set_sprites (survivors (killed w) (sprites self)) self, w', tr))
    ∧ ∀ x, killed w' x = killed w x.
Proof.
  intros Hstable Hnd.
  destruct (run_survivors (length (sprites self)) [] (sprites self) w [] Hstable)
    as (fin & Hrun & Hreg & Hflags & _); [done|done|].
  exists (world fin), (trace fin ++ [UserUpdate dt]). split; [|exact Hflags].
  unfold _update, sprite_pass, start. simpl in Hrun. rewrite Hrun. simpl.
  by rewrite Hreg.
Qed.

(** Killed sprites go in the end: with the plain [Engine], a registry
    without duplicates and [killed] flags that no [update] changes, after as
    many ticks as there are killed sprites (or more) the registry is exactly
    its live sprites, in their order. *)
Theorem killed_sprites_go_eventually (n : nat) (dt : Q) (self : Engine) (w : World) :
  flags_stable →
  NoDup (sprites self) →
  length (List.filter (killed w) (sprites self)) ≤ n →
  ∃ w',
    @ticks _ _ (BaseEngine World) n dt self w
    = Some (Ok tt,
            (set_sprites (List.filter (λ x, negb (killed w x)) (sprites self)) self, w')).
Proof.
  intros Hstable. revert self w.
  induction n as [|n IH]; intros self w Hnd Hcount.
  - exists w. simpl. rewrite filter_live_all by lia. by rewrite set_sprites_same.
  - destruct (base_tick_outcome dt self w Hstable Hnd) as (w1 & tr & Htick & Hflags).
    pose proof (survivors_fewer_dead (killed w) (sprites self)) as [Hle Hlt].
    pose proof (List.filter_ext _ _ Hflags) as Hdead.
    destruct (IH (set_sprites (survivors (killed w) (sprites self)) self) w1)
      as [w' Hticks].
    + simpl. eapply sublist_NoDup; [exact Hnd|apply survivors_sublist].
    + simpl. rewrite Hdead.
      destruct (length (List.filter (killed w) (sprites self))); lia.
    + exists w'. cbn [ticks]. rewrite Htick, Hticks. simpl.
      assert (Hlive : ∀ x, negb (killed w1 x) = negb (killed w x))
        by (intros x; by rewrite Hflags).
      rewrite (List.filter_ext _ _ Hlive), survivors_keep_live. done.
Qed.

End PassProperties.

Section PassExamples.
Import Loop.

(** [0; 1; 2; 3; 4] with 1, 2 and 4 killed: 1 goes, 2 is stepped over, 3 is
    updated, 4 goes. *)
Lemma pass_outcome_witness :
  ∃ fin,
    @sprite_pass _ Fixture.inert [0; 1; 2; 3; 4] [1; 2; 4] = Some (Ok tt, fin)
    ∧ registry fin = [0; 2; 3]
    ∧ update_targets (trace fin) = [0; 3].
Proof.
  apply (@pass_outcome _ Fixture.inert [0; 1; 2; 3; 4] [1; 2; 4]).
  - intros s peers w x. reflexivity.
  - apply (bool_decide_unpack _). vm_compute. exact I.
Defined.

(** [0; 1; 0] with 1 killed: 0, listed twice, is live and stays twice. *)
Lemma pass_keeps_live_sprites_witness :
  ∃ fin,
    @sprite_pass _ Fixture.inert [0; 1; 0] [1] = Some (Ok tt, fin)
    ∧ List.filter (λ x, negb (bool_decide (x ∈ [1]))) (registry fin) = [0; 0]
    ∧ (∀ s, RemoveWidget s ∈ trace fin → bool_decide (s ∈ [1]) = true)
    ∧ length (registry fin) ≤ 3.
Proof.
  apply (@pass_keeps_live_sprites _ Fixture.inert [0; 1; 0] [1]).
  intros s peers w x. reflexivity.
Defined.

(** Four killed sprites in a row are gone after four ticks. *)
Lemma killed_sprites_go_eventually_witness :
  ∃ w',
    @ticks _ Fixture.inert (BaseEngine _) 4 (1 # 60)%Q
      (set_sprites [0; 1; 2; 3] Fixture.fresh_engine) [0; 1; 2; 3]
    = Some (Ok tt, (Fixture.fresh_engine, w')).
Proof.
  apply (@killed_sprites_go_eventually _ Fixture.inert 4 (1 # 60)%Q
           (set_sprites [0; 1; 2; 3] Fixture.fresh_engine) [0; 1; 2; 3]).
  - intros s peers w x. reflexivity.
  - apply (bool_decide_unpack _). vm_compute. exact I.
  - vm_compute. lia.
Defined.

End PassExamples.

(** ** Which files become sheets, and what is loaded for them *)

Section SheetProperties.
Import Assets.

Lemma rsplit_dot_png (base : string) :
  rsplit_dot (base +:+ ".png") = Some (base, "png"%string).
Proof. induction base as [|c base IH]; [done|]. simpl. by rewrite IH. Qed.

Lemma rsplit_dot_join (s before after : string) :
  rsplit_dot s = Some (before, after) → s = before +:+ "." +:+ after.
Proof.
  revert before. induction s as [|c s IH]; intros before; [done|]. simpl.
  destruct (rsplit_dot s) as [[b a]|].
  - intros [= <- <-]. simpl. by rewrite (IH b).
  - destruct (Ascii.eqb c ".") eqn:Hc; [|done].
    apply Ascii.eqb_eq in Hc as ->. by intros [= <- <-].
Qed.

(** A file [<base>.png] is a sprite sheet whatever [base] is, dots included:
    its key in the dict is [base] and its config file is
    [<base>_config.toml]. *)
Theorem png_file_is_sheet (base : string) :
  is_image (base +:+ ".png")
  ∧ rsplit_first (base +:+ ".png") = base
  ∧ config_file_of (base +:+ ".png") = base +:+ "_config.toml".
Proof.
  unfold is_image, config_file_of, rsplit_first, rsplit_last.
  rewrite rsplit_dot_png. split; [|done].
  apply list_elem_of_singleton. done.
Qed.

(** The files taken for sprite sheets are exactly those named [<base>.png],
    and the file named just [png], which has no dot to split at. *)
Theorem is_image_iff (sp : string) :
  is_image sp ↔ sp = "png"%string ∨ ∃ base, sp = base +:+ ".png".
Proof.
  unfold is_image, IMAGE_EXTENSIONS. rewrite list_elem_of_singleton.
  unfold rsplit_last. split.
  - destruct (rsplit_dot sp) as [[before after]|] eqn:Hsplit; [|by left].
    intros ->. right. exists before. by apply rsplit_dot_join.
  - intros [->|[base ->]]; [done|]. by rewrite rsplit_dot_png.
Qed.

Lemma load_sheet_ok (fs : Services) (sp : string)
    (assets assets' : gmap string SpriteConfig) :
  load_sheet fs sp assets = Ok assets' →
  ∃ tex doc fields size modes frame_count config,
    CoreImage_texture fs sp = Ok tex
    ∧ toml_load fs (config_file_of sp) = Ok doc
    ∧ dict_get "animation" doc = Some (TTable fields)
    ∧ dict_get "size" fields = Some size
    ∧ dict_get "modes" fields = Some modes
    ∧ dict_get "frame_count" fields = Some frame_count
    ∧ SpriteConfig_init fs sp (mkTexture (tex_source tex) "nearest")
        size modes frame_count = Ok config
    ∧ assets' = <[rsplit_first sp := config]> assets.
Proof.
  unfold load_sheet, mbind, result_bind. intros Hload.
  destruct (CoreImage_texture fs sp) as [tex|] eqn:Htex; [|done].
  destruct (toml_load fs (config_file_of sp)) as [doc|] eqn:Hdoc; [|done].
  unfold subscript at 1 in Hload.
  destruct (dict_get "animation" doc) as [[| | | | |fields]|] eqn:Hanim; try done.
  unfold subscript in Hload.
  destruct (dict_get "size" fields) as [size|] eqn:Hsize; [|done].
  destruct (dict_get "modes" fields) as [modes|] eqn:Hmodes; [|done].
  destruct (dict_get "frame_count" fields) as [frame_count|] eqn:Hfc; [|done].
  destruct (SpriteConfig_init fs sp _ size modes frame_count) as [config|] eqn:Hinit;
    [|done].
  injection Hload as <-.
  exists tex, doc, fields, size, modes, frame_count, config. repeat split; done.
Qed.

Lemma load_loop_domain (fs : Services) (sheets : list string)
    (assets loaded : gmap string SpriteConfig) (log : list log_record) :
  (load_loop fs sheets assets log).1 = Ok loaded →
  ∀ k, is_Some (loaded !! k)
       ↔ is_Some (assets !! k)
         ∨ ∃ sp, sp ∈ sheets
                 ∧ path_exists fs (config_file_of sp) = true
                 ∧ rsplit_first sp = k.
Proof.
  revert assets log. induction sheets as [|x rest IH]; intros assets log; simpl.
  - intros [= <-] k. split; [by left|]. intros [Hk|(sp & Hin & _)]; [done|].
    by apply elem_of_nil in Hin.
  - destruct (path_exists fs (config_file_of x)) eqn:Hexists; simpl.
    + destruct (load_sheet fs x assets) as [assets'|] eqn:Hload; [|done].
      intros Hrest k. rewrite (IH _ _ Hrest k).
      apply load_sheet_inserts in Hload as [config ->].
      rewrite lookup_insert_is_Some. split.
      * intros [[<-|[_ Hk]]|(sp & Hin & Hsp)].
        -- right. exists x. split; [by left|done].
        -- by left.
        -- right. exists sp. split; [by right|done].
      * intros [Hk|(sp & Hin & Hcfg & Hsp)].
        -- left. destruct (decide (rsplit_first x = k)); [by left|by right].
        -- apply elem_of_cons in Hin as [->|Hin]; [by left; left|].
           right. by exists sp.
    + intros Hrest k. rewrite (IH _ _ Hrest k). split.
      * intros [Hk|(sp & Hin & Hsp)]; [by left|].
        right. exists sp. split; [by right|done].
      * intros [Hk|(sp & Hin & Hcfg & Hsp)]; [by left|].
        apply elem_of_cons in Hin as [->|Hin]; [congruence|].
        right. by exists sp.
Qed.

(** The keys of the dict [load_sprite_sheets] returns are exactly the base
    names of the listed image files whose config file exists. *)
Theorem loaded_keys (fs : Services) (names : list string)
    (loaded : gmap string SpriteConfig) :
  listdir fs = Ok names →
  (load_sprite_sheets fs).1 = Ok loaded →
  ∀ k, is_Some (loaded !! k)
       ↔ ∃ sp, sp ∈ names
               ∧ is_image sp
               ∧ path_exists fs (config_file_of sp) = true
               ∧ rsplit_first sp = k.
Proof.
  intros Hdir Hload k. unfold load_sprite_sheets in Hload. rewrite Hdir in Hload.
  rewrite (load_loop_domain _ _ _ _ _ Hload k). split.
  - intros [[c Hk]|(sp & Hin & Hsp)]; [by rewrite lookup_empty in Hk|].
    apply list_elem_of_filter in Hin as [Himg Hin]. by exists sp.
  - intros (sp & Hin & Himg & Hsp). right. exists sp. split; [|done].
    by apply list_elem_of_filter.
Qed.

Lemma load_loop_entries (fs : Services) (sheets : list string)
    (assets loaded : gmap string SpriteConfig) (log : list log_record) :
  (load_loop fs sheets assets log).1 = Ok loaded →
  ∀ k config,
    loaded !! k = Some config →
    assets !! k = Some config
    ∨ ∃ sp, sp ∈ sheets ∧ rsplit_first sp = k ∧ built_from fs sp config.
Proof.
  revert assets log. induction sheets as [|x rest IH]; intros assets log; simpl.
  - intros [= <-] k config Hk. by left.
  - destruct (negb (path_exists fs (config_file_of x))).
    + intros Hrest k config Hk.
      destruct (IH _ _ Hrest k config Hk) as [Hold|(sp & Hin & Hsp)]; [by left|].
      right. exists sp. split; [by right|done].
    + destruct (load_sheet fs x assets) as [assets'|] eqn:Hload; [|done].
      intros Hrest k config Hk.
      destruct (IH _ _ Hrest k config Hk) as [Hold|(sp & Hin & Hsp)].
      * apply load_sheet_ok in Hload
          as (tex & doc & fields & size & modes & fc & c & ? & ? & ? & ? & ? & ? & ? & ->).
        destruct (decide (rsplit_first x = k)) as [<-|Hne].
        -- rewrite lookup_insert_eq in Hold. injection Hold as <-.
           right. exists x. split; [by left|]. split; [done|].
           by exists tex, doc, fields, size, modes, fc.
        -- rewrite lookup_insert_ne in Hold by done. by left.
      * right. exists sp. split; [by right|done].
Qed.

(** Every entry of the returned dict was built for a listed image file with
    that base name: by the [SpriteConfig] constructor, from the file's name,
    its texture with [mag_filter] set to ['nearest'], and the [size], [modes]
    and [frame_count] values of the [animation] table of its config file. *)
Theorem loaded_entries (fs : Services) (names : list string)
    (loaded : gmap string SpriteConfig) (k : string) (config : SpriteConfig) :
  listdir fs = Ok names →
  (load_sprite_sheets fs).1 = Ok loaded →
  loaded !! k = Some config →
  ∃ sp, sp ∈ names ∧ is_image sp ∧ rsplit_first sp = k ∧ built_from fs sp config.
Proof.
  intros Hdir Hload Hk. unfold load_sprite_sheets in Hload. rewrite Hdir in Hload.
  destruct (load_loop_entries _ _ _ _ _ Hload k config Hk)
    as [Hempty|(sp & Hin & Hsp & Hbuilt)]; [by rewrite lookup_empty in Hempty|].
  apply list_elem_of_filter in Hin as [Himg Hin]. by exists sp.
Qed.

Lemma load_loop_log (fs : Services) (sheets : list string)
    (assets loaded : gmap string SpriteConfig) (log log' : list log_record) :
  load_loop fs sheets assets log = (Ok loaded, log') →
  log' = log ++ ((λ sp, LogError (no_config_message sp))
                 <$> filter (λ sp, path_exists fs (config_file_of sp) = false) sheets).
Proof.
  revert assets log. induction sheets as [|x rest IH]; intros assets log; simpl.
  - intros [= _ <-]. by rewrite app_nil_r.
  - destruct (path_exists fs (config_file_of x)) eqn:Hexists; simpl.
    + destruct (load_sheet fs x assets) as [assets'|]; [|done].
      intros Hrest. rewrite (IH _ _ Hrest).
      by rewrite filter_cons_False by (by rewrite Hexists).
    + intros Hrest. rewrite (IH _ _ Hrest).
      rewrite filter_cons_True by done. by rewrite fmap_cons, <- app_assoc.
Qed.

(** When [load_sprite_sheets] returns, it has logged one error for each
    listed image file without a config file, in listing order, and nothing
    else. *)
Theorem skipped_sheets_logged (fs : Services) (names : list string)
    (loaded : gmap string SpriteConfig) (log : list log_record) :
  listdir fs = Ok names →
  load_sprite_sheets fs = (Ok loaded, log) →
  log = (λ sp, LogError (no_config_message sp))
        <$> filter (λ sp, path_exists fs (config_file_of sp) = false)
              (filter is_image names).
Proof.
  intros Hdir Hload. unfold load_sprite_sheets in Hload. rewrite Hdir in Hload.
  by apply load_loop_log in Hload.
Qed.

Lemma add_observer_bound (cb : Kbd.callback) (l : list Kbd.callback) :
  cb ∈ Kbd.add_observer cb l.
Proof.
  unfold Kbd.add_observer. destruct (decide (cb ∈ l)); [done|].
  apply elem_of_app. right. by apply list_elem_of_singleton.
Qed.

Lemma add_observer_keeps (cb other : Kbd.callback) (l : list Kbd.callback) :
  other ∈ l → other ∈ Kbd.add_observer cb l.
Proof.
  intros Hin. unfold Kbd.add_observer. destruct (decide (cb ∈ l)); [done|].
  apply elem_of_app. by left.
Qed.

(** When loading the sheets raises, [__init__] raises the same exception
    after it has bound both keyboard handlers: they are bound on the host's
    keyboard afterwards, next to every observer it had, and neither periodic
    callback has been scheduled. *)
Theorem init_failure_leaves_handlers (fs : Services) (host : Init.Host) (e : exn) :
  (load_sprite_sheets fs).1 = Raise e →
  ∃ host',
    Init.__init__ fs host = (Raise e, host')
    ∧ Init.schedule host' = Init.schedule host
    ∧ Kbd.Engine_on_keyboard_down ∈ Kbd.key_down_observers (Init.keyboard host')
    ∧ Kbd.Engine_on_keyboard_up ∈ Kbd.key_up_observers (Init.keyboard host')
    ∧ (∀ cb, cb ∈ Kbd.key_down_observers (Init.keyboard host) →
             cb ∈ Kbd.key_down_observers (Init.keyboard host'))
    ∧ (∀ cb, cb ∈ Kbd.key_up_observers (Init.keyboard host) →
             cb ∈ Kbd.key_up_observers (Init.keyboard host')).
Proof.
  intros Hload. unfold Init.__init__. simpl.
  destruct (load_sprite_sheets fs) as [r log]. simpl in Hload. subst r.
  eexists. split; [reflexivity|]. simpl. split; [done|].
  split; [apply add_observer_bound|]. split; [apply add_observer_bound|].
  split; intros cb; apply add_observer_keeps.
Qed.

End SheetProperties.

Section SheetExamples.
Import Assets.

Lemma loaded_keys_witness :
  is_Some (({[ "coin"%string := Fixture.coin_config ]} : gmap string SpriteConfig)
             !! "hero"%string)
  ↔ ∃ sp, sp ∈ ["hero.png"; "coin.png"; "coin_config.toml"]%string
          ∧ is_image sp
          ∧ path_exists Fixture.coin_only (config_file_of sp) = true
          ∧ rsplit_first sp = "hero"%string.
Proof.
  apply (loaded_keys Fixture.coin_only
           ["hero.png"; "coin.png"; "coin_config.toml"]%string
           {[ "coin"%string := Fixture.coin_config ]}); reflexivity.
Defined.

Lemma loaded_entries_witness :
  ∃ sp, sp ∈ ["hero.png"; "coin.png"; "coin_config.toml"]%string
        ∧ is_image sp
        ∧ rsplit_first sp = "coin"%string
        ∧ built_from Fixture.coin_only sp Fixture.coin_config.
Proof.
  apply (loaded_entries Fixture.coin_only _
           {[ "coin"%string := Fixture.coin_config ]}); reflexivity.
Defined.

Lemma skipped_sheets_logged_witness :
  [LogError (no_config_message "hero.png")]
  = (λ sp, LogError (no_config_message sp))
    <$> filter (λ sp, path_exists Fixture.coin_only (config_file_of sp) = false)
          (filter is_image ["hero.png"; "coin.png"; "coin_config.toml"]%string).
Proof.
  apply (skipped_sheets_logged Fixture.coin_only _
           {[ "coin"%string := Fixture.coin_config ]}); reflexivity.
Defined.

Lemma init_failure_leaves_handlers_witness :
  ∃ host',
    Init.__init__ Fixture.hero_malformed Fixture.idle_host
    = (Raise (KeyError "modes"), host')
    ∧ Init.schedule host' = []
    ∧ Kbd.Engine_on_keyboard_down ∈ Kbd.key_down_observers (Init.keyboard host')
    ∧ Kbd.Engine_on_keyboard_up ∈ Kbd.key_up_observers (Init.keyboard host')
    ∧ (∀ cb, cb ∈ [] → cb ∈ Kbd.key_down_observers (Init.keyboard host'))
    ∧ (∀ cb, cb ∈ [] → cb ∈ Kbd.key_up_observers (Init.keyboard host')).
Proof.
  apply (init_failure_leaves_handlers Fixture.hero_malformed Fixture.idle_host).
  reflexivity.
Defined.

End SheetExamples.
